(** * reach_ros: collision-aware MoveIt IK solvers

    A shallow embedding of [src/ik/moveit_ik_solver.cpp]: the anonymous
    [clamp] helper, [MoveItIKSolver], [DiscretizedMoveItIKSolver] and the two
    factories, followed by the properties of the specification that concern
    them.

    - C++ [double] is the kernel's binary64 [float]; [int] is a [Z] in the
      32-bit range, and a conversion that leaves the range is undefined.
    - MoveIt, Eigen's matrices, ROS and the helpers of [reach_ros/utils.h]
      are collaborators: a type class [Collaborators] lists the operations
      the file calls, so every definition reads like the method it embeds.
    - Effects (the function-local static of the discretized [solveIK],
      [std::cout], scene publishing, the calls into the numerical IK routine,
      exceptions and undefined behaviour) are threaded through a small
      state-and-error monad [Cmd]. *)

From Stdlib Require Import Floats Uint63 ZArith List String Bool Lia.
Import ListNotations.

Set Implicit Arguments.

(** ** C++ scalars *)

Module Cpp.

Definition double : Type := float.

(** [M_PI] of <cmath>: 3.14159265358979323846 rounded to binary64. *)
Definition M_PI : double := 0x1.921fb54442d18p+1%float.

(** The literal [1.0e-6], rounded to binary64. *)
Definition tolerance : double := 0x1.0c6f7a0b5ed8dp-20%float.

(** [std::min(a, b)] is [(b < a) ? b : a]; [std::max(a, b)] is
    [(a < b) ? b : a]. *)
Definition std_min (a b : double) : double := if (b <? a)%float then b else a.
Definition std_max (a b : double) : double := if (a <? b)%float then b else a.

(** [std::abs] on a [double]. *)
Definition std_abs (x : double) : double := PrimFloat.abs x.

Definition INT_MIN : Z := (- 2 ^ 31)%Z.
Definition INT_MAX : Z := (2 ^ 31 - 1)%Z.

Definition in_int_range (z : Z) : bool := ((INT_MIN <=? z) && (z <=? INT_MAX))%Z.

(** The value of a finite binary64 number with its fractional part
    discarded (rounding toward zero); [None] for an infinity or a NaN. *)
Definition truncate (x : double) : option Z :=
  match Prim2SF x with
  | S754_zero _ => Some 0%Z
  | S754_finite s m e =>
      let t := Z.shiftl (Z.pos m) e in
      Some (if s then (- t)%Z else t)
  | S754_infinity _ => None
  | S754_nan => None
  end.

(** [int(x)] for a [double] [x]: the truncated value when an [int] can hold
    it; otherwise the behaviour is undefined ([None]). *)
Definition double_to_int (x : double) : option Z :=
  match truncate x with
  | Some t => if in_int_range t then Some t else None
  | None => None
  end.

(** [double(i)] for an [int] [i] (exact: an [int] has fewer than 53 bits). *)
Definition int_to_double (i : Z) : double :=
  if (i <? 0)%Z then (- PrimFloat.of_uint63 (Uint63.of_Z (- i)))%float
  else PrimFloat.of_uint63 (Uint63.of_Z i).

End Cpp.
Import Cpp.

(** The anonymous namespace's [clamp<T>], at [T = double]. *)
Definition clamp (val low high : double) : double :=
  std_max low (std_min val high).

(** ** Eigen *)

Record Vector3d : Type := { vx : double; vy : double; vz : double }.

Definition UnitZ : Vector3d := {| vx := 0%float; vy := 0%float; vz := 1%float |}.

Record AngleAxisd : Type := { angle : double; axis : Vector3d }.

(** Eigen's dense kernels: 3x3 matrices, their product, and the rotation
    matrix of an angle-axis pair ([AngleAxis::toRotationMatrix]). *)
Class EigenKernels : Type := {
  Matrix3d : Type;
  matrix_product : Matrix3d -> Matrix3d -> Matrix3d;
  toRotationMatrix : AngleAxisd -> Matrix3d
}.

Section Geometry.

Context {eigen : EigenKernels}.

(** [Eigen::Isometry3d]: a linear part and a translation. *)
Record Isometry3d : Type := { linear : Matrix3d; translation : Vector3d }.

(** [Transform::operator*(const RotationBase&)]: a copy of the transform
    whose linear part is multiplied on the right by the rotation's matrix
    ([Transform::rotate]); the translation is the copy's. *)
Definition times_rotation (t : Isometry3d) (r : AngleAxisd) : Isometry3d :=
  {| linear := matrix_product (linear t) (toRotationMatrix r);
     translation := translation t |}.

End Geometry.

(** ** YAML configuration

    A configuration is a map node; the values the factories read are
    scalars and sequences of scalars.  A scalar carries its text and, when
    [as<double>] accepts that text, the number it converts to; a sequence
    carries the texts of its items. *)

Inductive Yaml : Type :=
| Scalar (text : string) (as_double : option double)
| Sequence (items : list string).

Definition Node : Type := list (string * Yaml).

(** [config[key]], the node under [key] if it is defined. *)
Fixpoint subscript (config : Node) (key : string) : option Yaml :=
  match config with
  | [] => None
  | (k, v) :: rest => if String.eqb k key then Some v else subscript rest key
  end.

(** [if (config[key])]. *)
Definition defined (config : Node) (key : string) : bool :=
  match subscript config key with Some _ => true | None => false end.

Definition yaml_as_string (y : Yaml) : option string :=
  match y with Scalar text _ => Some text | Sequence _ => None end.

Definition yaml_as_double (y : Yaml) : option double :=
  match y with Scalar _ d => d | Sequence _ => None end.

Definition yaml_as_strings (y : Yaml) : option (list string) :=
  match y with Scalar _ _ => None | Sequence items => Some items end.

(** ** Exceptions and outcomes *)

Inductive exception : Type :=
| runtime_error (what : string)
| length_error (what : string).

Inductive outcome (A : Type) : Type :=
| Returned (a : A)
| Thrown (e : exception)
| Undefined.

Arguments Thrown {A} e.
Arguments Undefined {A}.

(** The value of a normal return, [default] otherwise. *)
Definition value_or {A : Type} (default : A) (o : outcome A) : A :=
  match o with Returned a => a | _ => default end.

(** A [std::map<std::string, double>]. *)
Definition SeedMap : Type := list (string * double).

(** ** Collaborators *)

Class Collaborators {eigen : EigenKernels} : Type := {
  (** moveit::core *)
  RobotModel : Type;
  JointModelGroup : Type;
  KinematicsBase : Type;
  RobotState : Type;
  getJointModelGroup : RobotModel -> string -> option JointModelGroup;
  getActiveJointModelNames : JointModelGroup -> list string;
  getName : JointModelGroup -> string;
  getSolverInstance : JointModelGroup -> option KinematicsBase;
  getBaseFrame : KinematicsBase -> string;
  RobotState_new : RobotModel -> RobotState;
  setJointGroupPositions : RobotState -> JointModelGroup -> list double -> RobotState;
  update : RobotState -> RobotState;
  copyJointGroupPositions : RobotState -> JointModelGroup -> list double;
  (** [setFromIK(jmg, pose, timeout, constraint)]: whether a solution
      accepted by [constraint] was found, and the state it leaves. *)
  setFromIK :
    RobotState -> JointModelGroup -> Isometry3d -> double ->
    (RobotState -> JointModelGroup -> list double -> bool * RobotState) ->
    bool * RobotState;

  (** planning_scene and moveit_msgs *)
  PlanningScene : Type;
  AllowedCollisionMatrix : Type;
  CollisionObject : Type;
  PlanningSceneMsg : Type;
  PlanningScene_new : RobotModel -> PlanningScene;
  isStateColliding : PlanningScene -> RobotState -> string -> bool -> bool;
  distanceToCollision : PlanningScene -> RobotState -> AllowedCollisionMatrix -> double;
  getAllowedCollisionMatrix : PlanningScene -> AllowedCollisionMatrix;
  processCollisionObjectMsg : PlanningScene -> CollisionObject -> bool * PlanningScene;
  setEntry : PlanningScene -> string -> list string -> bool -> PlanningScene;
  getPlanningSceneMsg : PlanningScene -> PlanningSceneMsg;

  (** moveit::planning_interface *)
  getSharedRobotModel : string -> option RobotModel;

  (** Modelled from the spec: [utils::transcribeInputMap] and
      [utils::createCollisionObject] of reach_ros/utils.h, which this file
      calls and does not define.  The seed map is converted to the values of
      the chain's joints, a missing name taking a default and extra names
      being ignored, so the conversion is total; building the obstacle fails
      when the mesh cannot be read. *)
  transcribeInputMap : SeedMap -> list string -> list double;
  createCollisionObject : string -> string -> string -> exception + CollisionObject;

  (** [operator<<] of [std::ostream] on a [double]. *)
  show_double : double -> string
}.

(** ** The program *)

Section Program.

Context {eigen : EigenKernels} {collaborators : Collaborators}.

(** *** Process state

    - [n_discretizations]: the [const static int] local to
      [DiscretizedMoveItIKSolver::solveIK], [None] until the first call
      initialises it;
    - [cout]: what was written to [std::cout], oldest first;
    - [planning_scene_topic]: the messages published on "planning_scene";
    - [ik_requests]: the targets handed to [RobotState::setFromIK], oldest
      first (a trace of the calls into the numerical IK routine). *)
Record World : Type := {
  n_discretizations : option Z;
  cout : list string;
  planning_scene_topic : list PlanningSceneMsg;
  ik_requests : list Isometry3d
}.

Definition Cmd (A : Type) : Type := World -> outcome A * World.

Definition ret {A : Type} (a : A) : Cmd A := fun w => (Returned a, w).

Definition bind {A B : Type} (c : Cmd A) (k : A -> Cmd B) : Cmd B :=
  fun w =>
    match c w with
    | (Returned a, w') => k a w'
    | (Thrown e, w') => (Thrown e, w')
    | (Undefined, w') => (Undefined, w')
    end.

Definition throw {A : Type} (e : exception) : Cmd A := fun w => (Thrown e, w).

Definition undefined {A : Type} : Cmd A := fun w => (Undefined, w).

Definition print (s : string) : Cmd unit :=
  fun w =>
    (Returned tt,
     {| n_discretizations := n_discretizations w;
        cout := cout w ++ [s];
        planning_scene_topic := planning_scene_topic w;
        ik_requests := ik_requests w |}).

Definition publish (msg : PlanningSceneMsg) : Cmd unit :=
  fun w =>
    (Returned tt,
     {| n_discretizations := n_discretizations w;
        cout := cout w;
        planning_scene_topic := planning_scene_topic w ++ [msg];
        ik_requests := ik_requests w |}).

Definition request_ik (target : Isometry3d) : Cmd unit :=
  fun w =>
    (Returned tt,
     {| n_discretizations := n_discretizations w;
        cout := cout w;
        planning_scene_topic := planning_scene_topic w;
        ik_requests := ik_requests w ++ [target] |}).

(** A [const static int] local: initialised from [init] by the first
    execution that reaches it, read by every later one. *)
Definition static_int (init : option Z) : Cmd Z :=
  fun w =>
    match n_discretizations w with
    | Some n => (Returned n, w)
    | None =>
        match init with
        | Some n =>
            (Returned n,
             {| n_discretizations := Some n;
                cout := cout w;
                planning_scene_topic := planning_scene_topic w;
                ik_requests := ik_requests w |})
        | None => (Undefined, w)
        end
    end.

End Program.

Notation "x <- c1 ;; c2" := (bind c1 (fun x => c2))
  (at level 61, c1 at next level, right associativity).
Notation "c1 ;; c2" := (bind c1 (fun _ => c2))
  (at level 61, right associativity).

Section Solvers.

Context {eigen : EigenKernels} {collaborators : Collaborators}.

Local Open Scope string_scope.

(** [reach::get<T>(config, key)]: [config[key].as<T>()], a
    [std::runtime_error] when the key is missing or does not convert (the
    text of the message is the library's; only the key matters here). *)
Definition reach_get {A : Type} (as_T : Yaml -> option A) (config : Node) (key : string)
  : Cmd A :=
  match subscript config key with
  | Some y =>
      match as_T y with
      | Some a => ret a
      | None => throw (runtime_error ("Failed to load '" ++ key ++ "' from the configuration"))
      end
  | None => throw (runtime_error ("Failed to load '" ++ key ++ "' from the configuration"))
  end.

(** [utils::initROS()] touches nothing of the state modelled here. *)
Definition initROS : Cmd unit := ret tt.

(** *** MoveItIKSolver *)

Record MoveItIKSolver : Type := {
  model_ : RobotModel;
  jmg_ : JointModelGroup;
  distance_threshold_ : double;
  scene_ : PlanningScene
}.

Definition COLLISION_OBJECT_NAME : string := "reach_object".

(** The constructor. *)
Definition MoveItIKSolver_new (model : RobotModel) (planning_group : string)
  (dist_threshold : double) : Cmd MoveItIKSolver :=
  match getJointModelGroup model planning_group with
  | None =>
      throw (runtime_error
               ("Failed to initialize joint model group for planning group '"
                  ++ planning_group ++ "'"))
  | Some jmg =>
      let scene := PlanningScene_new model in
      publish (getPlanningSceneMsg scene) ;;
      ret {| model_ := model;
             jmg_ := jmg;
             distance_threshold_ := dist_threshold;
             scene_ := scene |}
  end.

(** [isIKSolutionValid]: the verdict, with the state it posed. *)
Definition isIKSolutionValid (self : MoveItIKSolver) (state : RobotState)
  (jmg : JointModelGroup) (ik_solution : list double) : bool * RobotState :=
  let state := setJointGroupPositions state jmg ik_solution in
  let state := update state in
  let colliding := isStateColliding (scene_ self) state (getName jmg) false in
  let too_close :=
    (distanceToCollision (scene_ self) state (getAllowedCollisionMatrix (scene_ self))
     <? distance_threshold_ self)%float in
  (negb colliding && negb too_close, state).

(** [MoveItIKSolver::solveIK]; [request_ik] records the call of
    [setFromIK] that follows it. *)
Definition MoveItIKSolver_solveIK (self : MoveItIKSolver) (target : Isometry3d)
  (seed : SeedMap) : Cmd (list (list double)) :=
  let state := RobotState_new (model_ self) in
  let joint_names := getActiveJointModelNames (jmg_ self) in
  let seed_subset := transcribeInputMap seed joint_names in
  let state := setJointGroupPositions state (jmg_ self) seed_subset in
  let state := update state in
  request_ik target ;;
  let (found, state) :=
    setFromIK state (jmg_ self) target 0%float (isIKSolutionValid self) in
  if found then
    let solution := copyJointGroupPositions state (jmg_ self) in
    ret [solution]
  else ret [].

Definition getJointNames (self : MoveItIKSolver) : list string :=
  getActiveJointModelNames (jmg_ self).

Definition addCollisionMesh (self : MoveItIKSolver)
  (collision_mesh_filename collision_mesh_frame : string) : Cmd MoveItIKSolver :=
  match createCollisionObject collision_mesh_filename collision_mesh_frame
          COLLISION_OBJECT_NAME with
  | inl e => throw e
  | inr obj =>
      let (processed, scene) := processCollisionObjectMsg (scene_ self) obj in
      if processed then
        publish (getPlanningSceneMsg scene) ;;
        ret {| model_ := model_ self;
               jmg_ := jmg_ self;
               distance_threshold_ := distance_threshold_ self;
               scene_ := scene |}
      else throw (runtime_error "Failed to add collision mesh to planning scene")
  end.

Definition setTouchLinks (self : MoveItIKSolver) (touch_links : list string)
  : MoveItIKSolver :=
  {| model_ := model_ self;
     jmg_ := jmg_ self;
     distance_threshold_ := distance_threshold_ self;
     scene_ := setEntry (scene_ self) COLLISION_OBJECT_NAME touch_links true |}.

(** [jmg_->getSolverInstance()->getBaseFrame()]; a group without a solver
    instance gives a null pointer to dereference. *)
Definition getKinematicBaseFrame (self : MoveItIKSolver) : Cmd string :=
  match getSolverInstance (jmg_ self) with
  | Some solver => ret (getBaseFrame solver)
  | None => undefined
  end.

(** [MoveItIKSolverFactory::create]. *)
Definition MoveItIKSolverFactory_create (config : Node) : Cmd MoveItIKSolver :=
  planning_group <- reach_get yaml_as_string config "planning_group" ;;
  dist_threshold <- reach_get yaml_as_double config "distance_threshold" ;;
  initROS ;;
  match getSharedRobotModel "robot_description" with
  | None => throw (runtime_error "Failed to initialize robot model pointer")
  | Some model =>
      ik_solver <- MoveItIKSolver_new model planning_group dist_threshold ;;
      let collision_mesh_filename_key := "collision_mesh_filename" in
      let collision_mesh_frame_key := "collision_mesh_key" in
      ik_solver <-
        (if defined config collision_mesh_filename_key then
           collision_mesh_filename <-
             reach_get yaml_as_string config collision_mesh_filename_key ;;
           collision_mesh_frame <-
             (if defined config collision_mesh_frame_key then
                reach_get yaml_as_string config collision_mesh_frame_key
              else getKinematicBaseFrame ik_solver) ;;
           addCollisionMesh ik_solver collision_mesh_filename collision_mesh_frame
         else ret ik_solver) ;;
      let touch_links_key := "touch_links" in
      ik_solver <-
        (if defined config touch_links_key then
           touch_links <- reach_get yaml_as_strings config touch_links_key ;;
           ret (setTouchLinks ik_solver touch_links)
         else ret ik_solver) ;;
      ret ik_solver
  end.

(** *** DiscretizedMoveItIKSolver *)

Record DiscretizedMoveItIKSolver : Type := {
  base : MoveItIKSolver;
  dt_ : double
}.

(** The constructor: the base class's, then [dt_(dt)]. *)
Definition DiscretizedMoveItIKSolver_new (model : RobotModel) (planning_group : string)
  (dist_threshold dt : double) : Cmd DiscretizedMoveItIKSolver :=
  b <- MoveItIKSolver_new model planning_group dist_threshold ;;
  ret {| base := b; dt_ := dt |}.

(** [solutions.reserve(n)]: the [int] converts to [size_type], so a
    negative [n] asks for more than [max_size()]. *)
Definition reserve (n : Z) : Cmd unit :=
  if (n <? 0)%Z then throw (length_error "vector::reserve") else ret tt.

(** The [for] loop of the discretized [solveIK]: [iterations] more passes,
    the next one at index [i]. *)
Fixpoint solveIK_loop (self : DiscretizedMoveItIKSolver) (target : Isometry3d)
  (seed : SeedMap) (iterations : nat) (i : Z) (solutions : list (list double))
  : Cmd (list (list double)) :=
  match iterations with
  | O => ret solutions
  | S remaining =>
      let discretized_target :=
        times_rotation target
          {| angle := (int_to_double i * dt_ self)%float; axis := UnitZ |} in
      tmp_sols <- MoveItIKSolver_solveIK (base self) discretized_target seed ;;
      let solutions :=
        match tmp_sols with
        | [] => solutions
        | front :: _ => (solutions ++ [front])%list
        end in
      solveIK_loop self target seed remaining (i + 1)%Z solutions
  end.

(** [DiscretizedMoveItIKSolver::solveIK]. *)
Definition DiscretizedMoveItIKSolver_solveIK (self : DiscretizedMoveItIKSolver)
  (target : Isometry3d) (seed : SeedMap) : Cmd (list (list double)) :=
  n_discretizations <- static_int (double_to_int ((2 * M_PI) / dt_ self)%float) ;;
  reserve n_discretizations ;;
  solveIK_loop self target seed (Z.to_nat n_discretizations) 0%Z [].

(** [DiscretizedMoveItIKSolverFactory::create]. *)
Definition DiscretizedMoveItIKSolverFactory_create (config : Node)
  : Cmd DiscretizedMoveItIKSolver :=
  planning_group <- reach_get yaml_as_string config "planning_group" ;;
  dist_threshold <- reach_get yaml_as_double config "distance_threshold" ;;
  initROS ;;
  match getSharedRobotModel "robot_description" with
  | None => throw (runtime_error "Failed to initialize robot model pointer")
  | Some model =>
      raw <- reach_get yaml_as_double config "discretization_angle" ;;
      let dt := std_abs raw in
      let clamped_dt := clamp dt 0%float M_PI in
      (if (tolerance <? std_abs (dt - clamped_dt))%float then
         print ("Clamping discretization angle between 0 and pi; new value is "
                  ++ show_double clamped_dt)
       else ret tt) ;;
      let dt := clamped_dt in
      ik_solver <- DiscretizedMoveItIKSolver_new model planning_group dist_threshold dt ;;
      let collision_mesh_filename_key := "collision_mesh_filename" in
      let collision_mesh_frame_key := "collision_mesh_key" in
      ik_solver <-
        (if defined config collision_mesh_filename_key then
           collision_mesh_filename <-
             reach_get yaml_as_string config collision_mesh_filename_key ;;
           collision_mesh_frame <-
             (if defined config collision_mesh_frame_key then
                reach_get yaml_as_string config collision_mesh_frame_key
              else getKinematicBaseFrame (base ik_solver)) ;;
           b <- addCollisionMesh (base ik_solver) collision_mesh_filename
                  collision_mesh_frame ;;
           ret {| base := b; dt_ := dt_ ik_solver |}
         else ret ik_solver) ;;
      let touch_links_key := "touch_links" in
      ik_solver <-
        (if defined config touch_links_key then
           touch_links <- reach_get yaml_as_strings config touch_links_key ;;
           ret {| base := setTouchLinks (base ik_solver) touch_links;
                  dt_ := dt_ ik_solver |}
         else ret ik_solver) ;;
      ret ik_solver
  end.

End Solvers.

(** ** Vocabulary of the statements *)

Section Vocabulary.

Context {eigen : EigenKernels} {collaborators : Collaborators}.

(** The process state after more IK requests. *)
Definition requested (targets : list Isometry3d) (w : World) : World :=
  {| n_discretizations := n_discretizations w;
     cout := cout w;
     planning_scene_topic := planning_scene_topic w;
     ik_requests := ik_requests w ++ targets |}.

(** The process state once the static of the discretized [solveIK] holds
    [n]. *)
Definition initialised (n : Z) (w : World) : World :=
  {| n_discretizations := Some n;
     cout := cout w;
     planning_scene_topic := planning_scene_topic w;
     ik_requests := ik_requests w |}.

(** The sample indices [0 .. n-1], in increasing order. *)
Definition samples (n : Z) : list Z := map Z.of_nat (seq 0 (Z.to_nat n)).

(** The indices the [for] loop visits in [count] passes that start at [i]. *)
Fixpoint indices_from (i : Z) (count : nat) : list Z :=
  match count with
  | O => []
  | S remaining => i :: indices_from (i + 1)%Z remaining
  end.

(** The nominal target composed on the right with the rotation of angle
    [i * dt] about the Z axis. *)
Definition rotated_target (dt : double) (target : Isometry3d) (i : Z) : Isometry3d :=
  times_rotation target {| angle := (int_to_double i * dt)%float; axis := UnitZ |}.

(** The state [MoveItIKSolver::solveIK] starts the numerical routine from. *)
Definition seeded_state (self : MoveItIKSolver) (seed : SeedMap) : RobotState :=
  update
    (setJointGroupPositions (RobotState_new (model_ self)) (jmg_ self)
       (transcribeInputMap seed (getActiveJointModelNames (jmg_ self)))).

(** The numerical routine's answer for [target], filtered by the solver's
    validity predicate. *)
Definition ik_answer (self : MoveItIKSolver) (target : Isometry3d) (seed : SeedMap)
  : bool * RobotState :=
  setFromIK (seeded_state self seed) (jmg_ self) target 0%float (isIKSolutionValid self).

(** What one base solve of [target] returns. *)
Definition attempt (self : MoveItIKSolver) (target : Isometry3d) (seed : SeedMap)
  : list (list double) :=
  if fst (ik_answer self target seed) then
    [copyJointGroupPositions (snd (ik_answer self target seed)) (jmg_ self)]
  else [].

Definition succeeds (self : MoveItIKSolver) (target : Isometry3d) (seed : SeedMap) : bool :=
  match attempt self target seed with [] => false | _ :: _ => true end.

(** The state [isIKSolutionValid] poses for a candidate. *)
Definition posed (state : RobotState) (jmg : JointModelGroup) (ik_solution : list double)
  : RobotState :=
  update (setJointGroupPositions state jmg ik_solution).

(** The public operations of a process, and the process state after one or
    a sequence of them. *)
Inductive operation : Type :=
| Create (config : Node)
| CreateDiscretized (config : Node)
| Solve (self : MoveItIKSolver) (target : Isometry3d) (seed : SeedMap)
| SolveDiscretized (self : DiscretizedMoveItIKSolver) (target : Isometry3d) (seed : SeedMap).

Definition perform (w : World) (op : operation) : World :=
  match op with
  | Create config => snd (MoveItIKSolverFactory_create config w)
  | CreateDiscretized config => snd (DiscretizedMoveItIKSolverFactory_create config w)
  | Solve self target seed => snd (MoveItIKSolver_solveIK self target seed w)
  | SolveDiscretized self target seed =>
      snd (DiscretizedMoveItIKSolver_solveIK self target seed w)
  end.

Definition perform_all (ops : list operation) (w : World) : World :=
  fold_left perform ops w.

(** A command that leaves an initialised static of the discretized
    [solveIK] as it is. *)
Definition keeps_static {A : Type} (c : Cmd A) : Prop :=
  forall w n, n_discretizations w = Some n -> n_discretizations (snd (c w)) = Some n.

(** The line the discretized factory writes when it clamps. *)
Definition clamping_notice (clamped_dt : double) : string :=
  ("Clamping discretization angle between 0 and pi; new value is "
     ++ show_double clamped_dt)%string.

(** The configuration [config] with [key] set to [value]. *)
Definition with_option (key : string) (value : Yaml) (config : Node) : Node :=
  (key, value) :: config.

End Vocabulary.

(** ** A bench instance of the collaborators

    A two-joint planar arm used to run the program on concrete inputs: a
    rotation about Z is its yaw angle, the first joint takes the target's
    yaw and the second the target's x coordinate.  An obstacle in the scene
    blocks the yaws between 1 and 5 radians; the clearance of a state is its
    second joint value. *)

Module Planar.

Local Open Scope string_scope.

Record Group : Type := {
  group_name : string;
  joints : list string;
  solver_base_frame : option string
}.

Record Obstacle : Type := {
  mesh : string;
  frame_id : string;
  id : string
}.

Record Scene : Type := {
  objects : list Obstacle;
  allowed : list (string * list string)
}.

Definition manipulator : Group :=
  {| group_name := "manipulator";
     joints := ["joint_1"; "joint_2"];
     solver_base_frame := Some "base_link" |}.

Definition robot : list Group := [manipulator].

Definition empty_scene : Scene := {| objects := []; allowed := [] |}.

Definition part : Obstacle :=
  {| mesh := "part.ply"; frame_id := "base_link"; id := "reach_object" |}.

Definition obstructed_scene : Scene := {| objects := [part]; allowed := [] |}.

#[export] Instance eigen : EigenKernels := {|
  Matrix3d := double;
  matrix_product := fun a b => (a + b)%float;
  toRotationMatrix := fun r => angle r
|}.

Definition find_group (model : list Group) (name : string) : option Group :=
  find (fun g => String.eqb (group_name g) name) model.

Definition joint_value (state : list double) (i : nat) : double :=
  nth i state 0%float.

Definition seed_value (seed : SeedMap) (name : string) : double :=
  match find (fun e => String.eqb (fst e) name) seed with
  | Some e => snd e
  | None => 0%float
  end.

Definition blocked (scene : Scene) (state : list double) : bool :=
  match objects scene with
  | [] => false
  | _ :: _ => ((1 <? joint_value state 0) && (joint_value state 0 <? 5))%float
  end.

Definition numerical_ik (state : list double) (jmg : Group) (target : Isometry3d)
  (timeout : double)
  (constraint : list double -> Group -> list double -> bool * list double)
  : bool * list double :=
  let candidate := [linear target; vx (translation target)] in
  let (accepted, posed) := constraint state jmg candidate in
  if accepted then (true, posed) else (false, state).

#[export] Instance collaborators : Collaborators := {|
  RobotModel := list Group;
  JointModelGroup := Group;
  KinematicsBase := string;
  RobotState := list double;
  getJointModelGroup := find_group;
  getActiveJointModelNames := joints;
  getName := group_name;
  getSolverInstance := solver_base_frame;
  getBaseFrame := fun frame => frame;
  RobotState_new := fun _ => [];
  setJointGroupPositions := fun _ _ positions => positions;
  update := fun state => state;
  copyJointGroupPositions :=
    fun state jmg => map (joint_value state) (seq 0 (List.length (joints jmg)));
  setFromIK := numerical_ik;
  PlanningScene := Scene;
  AllowedCollisionMatrix := list (string * list string);
  CollisionObject := Obstacle;
  PlanningSceneMsg := Scene;
  PlanningScene_new := fun _ => empty_scene;
  isStateColliding := fun scene state _ _ => blocked scene state;
  distanceToCollision := fun _ state _ => joint_value state 1;
  getAllowedCollisionMatrix := allowed;
  processCollisionObjectMsg :=
    fun scene obj =>
      (negb (String.eqb (frame_id obj) ""),
       {| objects := obj :: objects scene; allowed := allowed scene |});
  setEntry :=
    fun scene name links _ =>
      {| objects := objects scene; allowed := (name, links) :: allowed scene |};
  getPlanningSceneMsg := fun scene => scene;
  getSharedRobotModel :=
    fun parameter =>
      if String.eqb parameter "robot_description" then Some robot else None;
  transcribeInputMap := fun seed names => map (seed_value seed) names;
  createCollisionObject :=
    fun filename frame name =>
      if String.eqb filename "" then inl (runtime_error "Failed to load the mesh")
      else inr {| mesh := filename; frame_id := frame; id := name |};
  show_double := fun _ => "<double>"
|}.

(** The process before anything ran. *)
Definition start : World :=
  {| n_discretizations := None;
     cout := [];
     planning_scene_topic := [];
     ik_requests := [] |}.

(** A pose at [(x, 0, 0)] with yaw [yaw]. *)
Definition pose (x yaw : double) : Isometry3d :=
  {| linear := yaw; translation := {| vx := x; vy := 0%float; vz := 0%float |} |}.

Definition text (s : string) : Yaml := Scalar s None.
Definition number (s : string) (d : double) : Yaml := Scalar s (Some d).

(** [planning_group: manipulator], [distance_threshold: 0.05]. *)
Definition base_config : Node :=
  [("planning_group", text "manipulator");
   ("distance_threshold", number "0.05" 0x1.999999999999ap-5%float)].

(** The same, with [discretization_angle] set to [raw]. *)
Definition discretized_config (raw : double) : Node :=
  ("discretization_angle", number "<angle>" raw) :: base_config.

(** The arm with clearance [threshold] in [scene], and the same arm sampled
    every [dt] radians. *)
Definition arm (threshold : double) (scene : Scene) : MoveItIKSolver :=
  {| model_ := robot;
     jmg_ := manipulator;
     distance_threshold_ := threshold;
     scene_ := scene |}.

Definition sampling_arm (dt : double) (scene : Scene) : DiscretizedMoveItIKSolver :=
  {| base := arm 0x1.999999999999ap-5%float scene; dt_ := dt |}.

(** [base_config] with a mesh, and the frame ["world"] under [frame_key]. *)
Definition mesh_config (frame_key : string) : Node :=
  with_option "collision_mesh_filename" (text "part.ply")
    (with_option frame_key (text "world") base_config).

(** The frames of the obstacles in a solver's scene. *)
Definition obstacle_frames (solver : MoveItIKSolver) : list string :=
  map frame_id (objects (scene_ solver)).

(** The solver the discretized factory builds for [config] in a fresh
    process, when it builds one. *)
Definition built (config : Node) : option DiscretizedMoveItIKSolver :=
  match DiscretizedMoveItIKSolverFactory_create config start with
  | (Returned solver, _) => Some solver
  | _ => None
  end.

End Planar.

(** ** Vocabulary of the further properties *)

(** The order [SFcompare] puts on the numbers of binary64, read off their
    representation: the class of the number (negative infinity, negative,
    zero, positive, positive infinity), then the exponent, then the
    mantissa, the last two negated for a negative number. *)
Module FloatRank.

Definition rank (x : spec_float) : Z * Z * Z :=
  match x with
  | S754_infinity true => (-2, 0, 0)%Z
  | S754_finite true m e => (-1, - e, - Z.pos m)%Z
  | S754_zero _ => (0, 0, 0)%Z
  | S754_nan => (0, 0, 0)%Z
  | S754_finite false m e => (1, e, Z.pos m)%Z
  | S754_infinity false => (2, 0, 0)%Z
  end.

Definition lex (a b : Z * Z * Z) : comparison :=
  match (fst (fst a) ?= fst (fst b))%Z with
  | Eq =>
      match (snd (fst a) ?= snd (fst b))%Z with
      | Eq => (snd a ?= snd b)%Z
      | c => c
      end
  | c => c
  end.

End FloatRank.

Section FurtherVocabulary.

Context {eigen : EigenKernels} {collaborators : Collaborators}.

(** The process state after more writes to [std::cout], and after more
    published scenes. *)
Definition printed (lines : list string) (w : World) : World :=
  {| n_discretizations := n_discretizations w;
     cout := cout w ++ lines;
     planning_scene_topic := planning_scene_topic w;
     ik_requests := ik_requests w |}.

Definition published (msgs : list PlanningSceneMsg) (w : World) : World :=
  {| n_discretizations := n_discretizations w;
     cout := cout w;
     planning_scene_topic := planning_scene_topic w ++ msgs;
     ik_requests := ik_requests w |}.

(** A command that writes nothing to [std::cout] and publishes nothing. *)
Definition silent {A : Type} (c : Cmd A) : Prop :=
  forall w,
    cout (snd (c w)) = cout w
    /\ planning_scene_topic (snd (c w)) = planning_scene_topic w.

(** A command that neither calls the numerical IK routine nor touches the
    static of the discretized [solveIK]. *)
Definition solves_nothing {A : Type} (c : Cmd A) : Prop :=
  forall w,
    n_discretizations (snd (c w)) = n_discretizations w
    /\ ik_requests (snd (c w)) = ik_requests w.

(** What [config[key].as<T>()] yields, when the key is defined and
    converts. *)
Definition configured {A : Type} (as_T : Yaml -> option A) (config : Node) (key : string)
  : option A :=
  match subscript config key with
  | Some y => as_T y
  | None => None
  end.

(** The notice the discretized factory prints for the raw angle [raw], if
    any. *)
Definition notice_for (raw : double) : list string :=
  if (tolerance <? std_abs (std_abs raw - clamp (std_abs raw) 0%float M_PI))%float
  then [clamping_notice (clamp (std_abs raw) 0%float M_PI)]
  else [].

(** Whether an operation is a call of the discretized [solveIK]. *)
Definition is_discretized_solve (op : operation) : bool :=
  match op with
  | SolveDiscretized _ _ _ => true
  | _ => false
  end.

End FurtherVocabulary.

(** ** A second bench: a mobile platform

    A planning group whose one active joint is planar.  MoveIt keeps three
    variables for a planar joint (x, y and the heading), so the group has
    one active joint name and its joint-group positions have three values.
    Everything but the group, the copy of the positions and the numerical
    routine is the first bench's. *)

Module Mobile.

Import Planar.

Local Open Scope string_scope.

#[export] Instance eigen : EigenKernels := Planar.eigen.

Definition platform : Group :=
  {| group_name := "platform";
     joints := ["world_joint"];
     solver_base_frame := Some "odom" |}.

(** The variables of a group: three for each of its planar joints. *)
Definition variable_count (jmg : Group) : nat := 3 * List.length (joints jmg).

(** The candidate of the numerical routine: the target's x, y and yaw. *)
Definition platform_ik (state : list double) (jmg : Group) (target : Isometry3d)
  (timeout : double)
  (constraint : list double -> Group -> list double -> bool * list double)
  : bool * list double :=
  let candidate :=
    [vx (translation target); vy (translation target); linear target] in
  let (accepted, posed) := constraint state jmg candidate in
  if accepted then (true, posed) else (false, state).

#[export] Instance collaborators : Collaborators := {|
  RobotModel := list Group;
  JointModelGroup := Group;
  KinematicsBase := string;
  RobotState := list double;
  getJointModelGroup := find_group;
  getActiveJointModelNames := joints;
  getName := group_name;
  getSolverInstance := solver_base_frame;
  getBaseFrame := fun frame => frame;
  RobotState_new := fun _ => [];
  setJointGroupPositions := fun _ _ positions => positions;
  update := fun state => state;
  copyJointGroupPositions :=
    fun state jmg => map (joint_value state) (seq 0 (variable_count jmg));
  setFromIK := platform_ik;
  PlanningScene := Scene;
  AllowedCollisionMatrix := list (string * list string);
  CollisionObject := Obstacle;
  PlanningSceneMsg := Scene;
  PlanningScene_new := fun _ => empty_scene;
  isStateColliding := fun _ _ _ _ => false;
  distanceToCollision := fun _ _ _ => 1%float;
  getAllowedCollisionMatrix := allowed;
  processCollisionObjectMsg :=
    fun scene obj =>
      (true, {| objects := obj :: objects scene; allowed := allowed scene |});
  setEntry :=
    fun scene name links _ =>
      {| objects := objects scene; allowed := (name, links) :: allowed scene |};
  getPlanningSceneMsg := fun scene => scene;
  getSharedRobotModel :=
    fun parameter =>
      if String.eqb parameter "robot_description" then Some [platform] else None;
  transcribeInputMap := fun seed names => map (seed_value seed) names;
  createCollisionObject :=
    fun filename frame name => inr {| mesh := filename; frame_id := frame; id := name |};
  show_double := fun _ => "<double>"
|}.

(** The process before anything ran. *)
Definition start : World :=
  {| n_discretizations := None;
     cout := [];
     planning_scene_topic := [];
     ik_requests := [] |}.

(** [planning_group: platform], [distance_threshold: 0]. *)
Definition config : Node :=
  [("planning_group", text "platform"); ("distance_threshold", number "0" 0%float)].


End Mobile.

(** Configurations of the first bench with the part in the scene. *)
Module PlanarMesh.

Import Planar.

Local Open Scope string_scope.

(** [base_config] with the mesh of the part (no frame configured) and the
    raw angle [raw]: the discretized factory builds
    [sampling_arm dt obstructed_scene] from it. *)
Definition obstructed_config (raw : double) : Node :=
  with_option "discretization_angle" (number "<angle>" raw)
    (with_option "collision_mesh_filename" (text "part.ply") base_config).

End PlanarMesh.

(** * Properties *)

Unset Implicit Arguments.

(** ** Binary64 comparisons *)

Module FloatOrder.

Lemma SFcompare_antisym (x y : spec_float) (c : comparison) :
  SFcompare x y = Some c -> SFcompare y x = Some (CompOpp c).
Proof.
  destruct x as [sx | sx | | sx mx ex], y as [sy | sy | | sy my ey]; simpl;
    try discriminate;
    try (intros E; injection E as <-);
    try (destruct sx; reflexivity);
    try (destruct sy; reflexivity);
    try (destruct sx, sy; reflexivity).
  destruct sx, sy; try reflexivity;
    rewrite (Z.compare_antisym ex ey);
    destruct (ex ?= ey)%Z; simpl; try reflexivity;
    change (Pos.compare_cont Eq my mx) with (my ?= mx)%positive;
    change (Pos.compare_cont Eq mx my) with (mx ?= my)%positive;
    rewrite (Pos.compare_antisym mx my);
    try rewrite CompOpp_involutive; reflexivity.
Qed.

Lemma SFcompare_refl (x : spec_float) : x <> S754_nan -> SFcompare x x = Some Eq.
Proof.
  destruct x as [s | s | | s m e]; simpl; intros N; try congruence.
  - destruct s; reflexivity.
  - destruct s; rewrite Z.compare_refl; fold (Pos.compare m m);
      rewrite Pos.compare_refl; reflexivity.
Qed.

Lemma SFcompare_defined (x y : spec_float) :
  x <> S754_nan -> y <> S754_nan -> exists c, SFcompare x y = Some c.
Proof.
  destruct x, y; simpl; intros; try congruence; eexists; reflexivity.
Qed.

Lemma is_nan_false (x : float) : is_nan x = false -> Prim2SF x <> S754_nan.
Proof.
  unfold is_nan. rewrite FloatAxioms.eqb_spec. unfold SFeqb. intros E N. rewrite N in E.
  discriminate.
Qed.

Lemma is_nan_true (x : float) : is_nan x = true -> Prim2SF x = S754_nan.
Proof.
  unfold is_nan. rewrite FloatAxioms.eqb_spec. unfold SFeqb. intros E.
  destruct (Prim2SF x) as [s | s | | s m e] eqn:P; try reflexivity;
    rewrite SFcompare_refl in E by discriminate; discriminate.
Qed.

Lemma ltb_not_nan (x y : float) :
  (x <? y)%float = true -> is_nan x = false /\ is_nan y = false.
Proof.
  rewrite FloatAxioms.ltb_spec. unfold SFltb. intros E.
  split.
  - destruct (is_nan x) eqn:N; [ | reflexivity ].
    apply is_nan_true in N. rewrite N in E. discriminate.
  - destruct (is_nan y) eqn:N; [ | reflexivity ].
    apply is_nan_true in N. rewrite N in E.
    destruct (Prim2SF x); discriminate.
Qed.

Lemma ltb_leb (x y : float) : (x <? y)%float = true -> (x <=? y)%float = true.
Proof.
  rewrite FloatAxioms.ltb_spec, FloatAxioms.leb_spec. unfold SFltb, SFleb.
  destruct (SFcompare (Prim2SF x) (Prim2SF y)) as [[ | | ] | ]; congruence.
Qed.

Lemma leb_not_ltb (x y : float) : (y <=? x)%float = true -> (x <? y)%float = false.
Proof.
  rewrite FloatAxioms.ltb_spec, FloatAxioms.leb_spec. unfold SFltb, SFleb.
  destruct (SFcompare (Prim2SF y) (Prim2SF x)) as [c | ] eqn:E; [ | discriminate ].
  rewrite (SFcompare_antisym _ _ _ E). destruct c; simpl; congruence.
Qed.

Lemma not_ltb_leb (x y : float) :
  is_nan x = false -> is_nan y = false ->
  (x <? y)%float = false -> (y <=? x)%float = true.
Proof.
  intros Nx Ny. apply is_nan_false in Nx. apply is_nan_false in Ny.
  rewrite FloatAxioms.ltb_spec, FloatAxioms.leb_spec. unfold SFltb, SFleb.
  destruct (SFcompare_defined _ _ Nx Ny) as [c E]. rewrite E.
  rewrite (SFcompare_antisym _ _ _ E). destruct c; simpl; congruence.
Qed.

End FloatOrder.

Lemma clamp_0_pi_range (val : double) :
  (0 <=? clamp val 0 M_PI)%float = true /\ (clamp val 0 M_PI <=? M_PI)%float = true.
Proof.
  unfold clamp, std_max, std_min.
  destruct (M_PI <? val)%float eqn:Hhigh.
  - vm_compute. split; reflexivity.
  - destruct (0 <? val)%float eqn:Hlow.
    + split.
      * apply FloatOrder.ltb_leb, Hlow.
      * apply FloatOrder.not_ltb_leb; [ reflexivity | | exact Hhigh ].
        apply (FloatOrder.ltb_not_nan _ _ Hlow).
    + vm_compute. split; reflexivity.
Qed.

(** ** The command monad *)

Section Commands.

Context {eigen : EigenKernels} {collaborators : Collaborators}.

Lemma bind_returned {A B : Type} (c : Cmd A) (k : A -> Cmd B) (w w1 : World) (a : A) :
  c w = (Returned a, w1) -> bind c k w = k a w1.
Proof. unfold bind. intros ->. reflexivity. Qed.

Lemma requested_nil (w : World) : requested [] w = w.
Proof. destruct w. unfold requested. simpl. rewrite app_nil_r. reflexivity. Qed.

Lemma requested_app (l1 l2 : list Isometry3d) (w : World) :
  requested l2 (requested l1 w) = requested (l1 ++ l2) w.
Proof. unfold requested. simpl. rewrite app_assoc. reflexivity. Qed.

Lemma keeps_static_ret {A : Type} (a : A) : keeps_static (ret a).
Proof. intros w n E. exact E. Qed.

Lemma keeps_static_throw {A : Type} (e : exception) : keeps_static (@throw _ _ A e).
Proof. intros w n E. exact E. Qed.

Lemma keeps_static_undefined {A : Type} : keeps_static (@undefined _ _ A).
Proof. intros w n E. exact E. Qed.

Lemma keeps_static_print (s : string) : keeps_static (print s).
Proof. intros w n E. exact E. Qed.

Lemma keeps_static_publish (msg : PlanningSceneMsg) : keeps_static (publish msg).
Proof. intros w n E. exact E. Qed.

Lemma keeps_static_request_ik (target : Isometry3d) : keeps_static (request_ik target).
Proof. intros w n E. exact E. Qed.

Lemma keeps_static_static_int (init : option Z) : keeps_static (static_int init).
Proof. intros w n E. unfold static_int. rewrite E. exact E. Qed.

Lemma keeps_static_bind {A B : Type} (c : Cmd A) (k : A -> Cmd B) :
  keeps_static c -> (forall a, keeps_static (k a)) -> keeps_static (bind c k).
Proof.
  intros Hc Hk w n E. unfold bind.
  specialize (Hc w n E). destruct (c w) as [[a | e | ] w1]; simpl in *.
  - apply Hk, Hc.
  - exact Hc.
  - exact Hc.
Qed.

End Commands.

Create HintDb frame.

#[local] Hint Resolve keeps_static_ret keeps_static_throw keeps_static_undefined
  keeps_static_print keeps_static_publish keeps_static_request_ik
  keeps_static_static_int keeps_static_bind : frame.

#[local] Hint Extern 1 (keeps_static (match ?x with _ => _ end)) => destruct x : frame.

Section Frames.

Context {eigen : EigenKernels} {collaborators : Collaborators}.

Lemma keeps_static_reach_get {A : Type} (as_T : Yaml -> option A) (config : Node)
  (key : string) : keeps_static (reach_get as_T config key).
Proof. unfold reach_get. auto with frame. Qed.

Lemma keeps_static_new (model : RobotModel) (group : string) (threshold : double) :
  keeps_static (MoveItIKSolver_new model group threshold).
Proof. unfold MoveItIKSolver_new. auto with frame. Qed.

Lemma keeps_static_addCollisionMesh (self : MoveItIKSolver) (filename frame_id : string) :
  keeps_static (addCollisionMesh self filename frame_id).
Proof. unfold addCollisionMesh. auto with frame. Qed.

Lemma keeps_static_getKinematicBaseFrame (self : MoveItIKSolver) :
  keeps_static (getKinematicBaseFrame self).
Proof. unfold getKinematicBaseFrame. auto with frame. Qed.

Lemma keeps_static_solveIK (self : MoveItIKSolver) (target : Isometry3d) (seed : SeedMap) :
  keeps_static (MoveItIKSolver_solveIK self target seed).
Proof. unfold MoveItIKSolver_solveIK. auto with frame. Qed.

End Frames.

#[local] Hint Resolve keeps_static_reach_get keeps_static_new
  keeps_static_addCollisionMesh keeps_static_getKinematicBaseFrame
  keeps_static_solveIK : frame.

(** ** The two [solveIK] methods as equations *)

Section SolveIK.

Context {eigen : EigenKernels} {collaborators : Collaborators}.

Lemma indices_from_seq (count : nat) (i : Z) :
  indices_from i count = map (fun d => (i + Z.of_nat d)%Z) (seq 0 count).
Proof.
  revert i. induction count as [ | count IH]; intros i; [ reflexivity | ].
  cbn [indices_from seq map]. f_equal; [ lia | ].
  rewrite IH, <- seq_shift, map_map. apply map_ext. intros d. lia.
Qed.

Lemma indices_from_0 (n : Z) : indices_from 0 (Z.to_nat n) = samples n.
Proof. rewrite indices_from_seq. reflexivity. Qed.

Lemma length_samples (n : Z) : List.length (samples n) = Z.to_nat n.
Proof. unfold samples. rewrite length_map, length_seq. reflexivity. Qed.

Lemma attempt_length (self : MoveItIKSolver) (target : Isometry3d) (seed : SeedMap) :
  (List.length (attempt self target seed) <= 1)%nat.
Proof. unfold attempt. destruct (fst _); simpl; lia. Qed.

(** One base solve: a request to the numerical routine, then zero or one
    configuration. *)
Lemma MoveItIKSolver_solveIK_eq (self : MoveItIKSolver) (target : Isometry3d)
  (seed : SeedMap) (w : World) :
  MoveItIKSolver_solveIK self target seed w
  = (Returned (attempt self target seed), requested [target] w).
Proof.
  unfold MoveItIKSolver_solveIK, attempt, ik_answer, seeded_state, bind, request_ik.
  destruct (setFromIK _ _ _ _ _) as [found state]. simpl.
  destruct found; reflexivity.
Qed.

(** What [push_back(tmp_sols.front())] under [!tmp_sols.empty()] adds. *)
Lemma push_front_attempt (self : MoveItIKSolver) (target : Isometry3d) (seed : SeedMap)
  (solutions : list (list double)) :
  match attempt self target seed with
  | [] => solutions
  | front :: _ => solutions ++ [front]
  end = solutions ++ attempt self target seed.
Proof.
  unfold attempt. destruct (fst _); simpl; [ reflexivity | ].
  rewrite app_nil_r. reflexivity.
Qed.

Lemma solveIK_loop_eq (self : DiscretizedMoveItIKSolver) (target : Isometry3d)
  (seed : SeedMap) (count : nat) :
  forall (i : Z) (solutions : list (list double)) (w : World),
    solveIK_loop self target seed count i solutions w
    = (Returned
         (solutions
            ++ flat_map (fun j => attempt (base self) (rotated_target (dt_ self) target j) seed)
                 (indices_from i count)),
       requested (map (rotated_target (dt_ self) target) (indices_from i count)) w).
Proof.
  induction count as [ | count IH]; intros i solutions w.
  - simpl. rewrite app_nil_r, requested_nil. reflexivity.
  - cbn [solveIK_loop indices_from flat_map map].
    fold (rotated_target (dt_ self) target i).
    rewrite (bind_returned _ _ _ _ _ (MoveItIKSolver_solveIK_eq _ _ _ _)).
    rewrite push_front_attempt, IH, requested_app, <- app_assoc. reflexivity.
Qed.

(** The discretized [solveIK] once its static holds [n]. *)
Lemma discretized_solveIK_later (self : DiscretizedMoveItIKSolver) (target : Isometry3d)
  (seed : SeedMap) (w : World) (n : Z) :
  n_discretizations w = Some n ->
  DiscretizedMoveItIKSolver_solveIK self target seed w
  = (reserve n ;; solveIK_loop self target seed (Z.to_nat n) 0%Z []) w.
Proof.
  intros E. unfold DiscretizedMoveItIKSolver_solveIK.
  erewrite bind_returned; [ reflexivity | ].
  unfold static_int. rewrite E. reflexivity.
Qed.

(** The discretized [solveIK] when it is the first to reach the static. *)
Lemma discretized_solveIK_first (self : DiscretizedMoveItIKSolver) (target : Isometry3d)
  (seed : SeedMap) (w : World) (n : Z) :
  n_discretizations w = None ->
  double_to_int ((2 * M_PI) / dt_ self)%float = Some n ->
  DiscretizedMoveItIKSolver_solveIK self target seed w
  = (reserve n ;; solveIK_loop self target seed (Z.to_nat n) 0%Z []) (initialised n w).
Proof.
  intros E I. unfold DiscretizedMoveItIKSolver_solveIK.
  erewrite bind_returned; [ reflexivity | ].
  unfold static_int. rewrite E, I. reflexivity.
Qed.

(** The samples tried and the solutions kept under a static that holds a
    non-negative [n]. *)
Lemma sampling_eq (self : DiscretizedMoveItIKSolver) (target : Isometry3d)
  (seed : SeedMap) (w : World) (n : Z) :
  (0 <= n)%Z ->
  (reserve n ;; solveIK_loop self target seed (Z.to_nat n) 0%Z []) w
  = (Returned
       (flat_map (fun j => attempt (base self) (rotated_target (dt_ self) target j) seed)
          (samples n)),
     requested (map (rotated_target (dt_ self) target) (samples n)) w).
Proof.
  intros N. unfold bind, reserve.
  destruct (n <? 0)%Z eqn:L; [ apply Z.ltb_lt in L; lia | ].
  unfold ret. rewrite solveIK_loop_eq, indices_from_0. reflexivity.
Qed.

(** The first discretized [solveIK] of a process takes the
    [int(2 pi / dt_)] samples of its own instance, each tried once. *)
Lemma first_call_samples (self : DiscretizedMoveItIKSolver) (target : Isometry3d)
  (seed : SeedMap) (w : World) (n : Z) :
  n_discretizations w = None ->
  double_to_int ((2 * M_PI) / dt_ self)%float = Some n ->
  (0 <= n)%Z ->
  DiscretizedMoveItIKSolver_solveIK self target seed w
  = (Returned
       (flat_map (fun j => attempt (base self) (rotated_target (dt_ self) target j) seed)
          (samples n)),
     requested (map (rotated_target (dt_ self) target) (samples n)) (initialised n w)).
Proof.
  intros Fresh Init N.
  rewrite (discretized_solveIK_first _ _ _ _ _ Fresh Init). apply sampling_eq, N.
Qed.

(** A discretized [solveIK] that returns: the static it ran under, and what
    it did. *)
Lemma discretized_solveIK_inversion (self : DiscretizedMoveItIKSolver)
  (target : Isometry3d) (seed : SeedMap) (w w' : World) (sols : list (list double)) :
  DiscretizedMoveItIKSolver_solveIK self target seed w = (Returned sols, w') ->
  exists n,
    (0 <= n)%Z
    /\ (n_discretizations w = Some n
        \/ (n_discretizations w = None
            /\ double_to_int ((2 * M_PI) / dt_ self)%float = Some n))
    /\ n_discretizations w' = Some n
    /\ sols = flat_map
                (fun j => attempt (base self) (rotated_target (dt_ self) target j) seed)
                (samples n)
    /\ ik_requests w' = ik_requests w ++ map (rotated_target (dt_ self) target) (samples n).
Proof.
  intros R.
  destruct (n_discretizations w) as [n | ] eqn:E.
  - rewrite (discretized_solveIK_later _ _ _ _ _ E) in R.
    destruct (Z.ltb_spec n 0) as [L | L].
    + unfold bind, reserve in R. apply Z.ltb_lt in L. rewrite L in R. discriminate.
    + rewrite (sampling_eq _ _ _ _ _ L) in R. injection R as <- <-.
      exists n. simpl. auto.
  - destruct (double_to_int ((2 * M_PI) / dt_ self)%float) as [n | ] eqn:I.
    + rewrite (discretized_solveIK_first _ _ _ _ _ E I) in R.
      destruct (Z.ltb_spec n 0) as [L | L].
      * unfold bind, reserve in R. apply Z.ltb_lt in L. rewrite L in R. discriminate.
      * rewrite (sampling_eq _ _ _ _ _ L) in R. injection R as <- <-.
        exists n. simpl. auto 6.
    + unfold DiscretizedMoveItIKSolver_solveIK, bind, static_int in R.
      rewrite E, I in R. discriminate.
Qed.

End SolveIK.

(** ** MoveItIKSolver::solveIK *)

Section BaseSolver.

Context {eigen : EigenKernels} {collaborators : Collaborators}.

(** C7: for every target, seed and process state, [MoveItIKSolver::solveIK]
    returns normally (it neither throws nor leaves defined behaviour) a
    sequence of at most one configuration: the configuration copied out of
    the state when [setFromIK], run with [isIKSolutionValid] as its
    acceptance callback, reports success, and the empty sequence when it
    reports failure. *)
Theorem solveIK_returns_at_most_one (self : MoveItIKSolver) (target : Isometry3d)
  (seed : SeedMap) (w : World) :
  exists sols : list (list double),
    fst (MoveItIKSolver_solveIK self target seed w) = Returned sols
    /\ (List.length sols <= 1)%nat
    /\ sols =
         (let (found, state) :=
            setFromIK (seeded_state self seed) (jmg_ self) target 0%float
              (isIKSolutionValid self) in
          if found then [copyJointGroupPositions state (jmg_ self)] else []).
Proof.
  exists (attempt self target seed).
  rewrite MoveItIKSolver_solveIK_eq. split; [ reflexivity | ].
  split; [ apply attempt_length | ].
  unfold attempt, ik_answer.
  destruct (setFromIK _ _ _ _ _) as [found state]. reflexivity.
Qed.

End BaseSolver.

(** ** DiscretizedMoveItIKSolver::solveIK *)

Section DiscretizedSolver.

Context {eigen : EigenKernels} {collaborators : Collaborators}.

Lemma flat_map_short {A B : Type} (f : A -> list B) (d : B) (l : list A) :
  (forall x, List.length (f x) <= 1)%nat ->
  flat_map f l
  = map (fun x => hd d (f x))
      (filter (fun x => match f x with [] => false | _ :: _ => true end) l).
Proof.
  intros Short. induction l as [ | x l IH]; [ reflexivity | ].
  cbn [flat_map filter]. specialize (Short x).
  destruct (f x) as [ | y [ | z rest]] eqn:F; simpl in Short; [ exact IH | | lia ].
  cbn [map]. rewrite F. simpl. f_equal. exact IH.
Qed.

(** The poses of a call that returns: with [n] the sample count the call
    ran under (the static's value before the call, or [int(2 pi / dt_)] when
    the call initialises the static), the poses handed to the base solve
    are, for each index [i] below [n], the nominal target with its linear
    part multiplied on the right by the rotation of angle [double(i) * dt_]
    about the Z axis, and with the nominal target's translation. *)
Lemma sampled_poses_rotate_about_Z (self : DiscretizedMoveItIKSolver)
  (target : Isometry3d) (seed : SeedMap) (w w' : World) (sols : list (list double)) :
  DiscretizedMoveItIKSolver_solveIK self target seed w = (Returned sols, w') ->
  exists (n : Z) (poses : list Isometry3d),
    n_discretizations w' = Some n
    /\ (n_discretizations w = Some n
        \/ (n_discretizations w = None
            /\ double_to_int ((2 * M_PI) / dt_ self)%float = Some n))
    /\ ik_requests w' = ik_requests w ++ poses
    /\ List.length poses = Z.to_nat n
    /\ forall i : nat,
         (i < Z.to_nat n)%nat ->
         exists pose,
           nth_error poses i = Some pose
           /\ pose = times_rotation target
                       {| angle := (int_to_double (Z.of_nat i) * dt_ self)%float;
                          axis := UnitZ |}
           /\ linear pose
              = matrix_product (linear target)
                  (toRotationMatrix
                     {| angle := (int_to_double (Z.of_nat i) * dt_ self)%float;
                        axis := UnitZ |})
           /\ translation pose = translation target.
Proof.
  intros R.
  destruct (discretized_solveIK_inversion _ _ _ _ _ _ R) as (n & N & Pre & S & _ & Q).
  exists n, (map (rotated_target (dt_ self) target) (samples n)).
  split; [ exact S | ]. split; [ exact Pre | ]. split; [ exact Q | ].
  split; [ rewrite length_map; apply length_samples | ].
  intros i I.
  exists (rotated_target (dt_ self) target (Z.of_nat i)).
  split; [ | repeat split ].
  unfold samples. rewrite map_map.
  rewrite nth_error_map, nth_error_seq.
  destruct (Nat.ltb_spec i (Z.to_nat n)) as [ _ | G]; [ reflexivity | lia ].
Qed.

(** The solutions of a call that returns: with [n] the sample count the
    call ran under, one entry for each index below [n] whose base solve is
    non-empty, namely that solve's configuration, in increasing order of the
    index and with nothing merged or dropped; so the length is the number of
    such indices, at most [n]. *)
Lemma solutions_follow_sample_order (self : DiscretizedMoveItIKSolver)
  (target : Isometry3d) (seed : SeedMap) (w w' : World) (sols : list (list double)) :
  DiscretizedMoveItIKSolver_solveIK self target seed w = (Returned sols, w') ->
  exists n : Z,
    n_discretizations w' = Some n
    /\ (n_discretizations w = Some n
        \/ (n_discretizations w = None
            /\ double_to_int ((2 * M_PI) / dt_ self)%float = Some n))
    /\ (forall (i : Z) (w0 : World),
          fst (MoveItIKSolver_solveIK (base self) (rotated_target (dt_ self) target i) seed w0)
          = Returned (attempt (base self) (rotated_target (dt_ self) target i) seed))
    /\ sols
       = map (fun i => hd [] (attempt (base self) (rotated_target (dt_ self) target i) seed))
           (filter (fun i => succeeds (base self) (rotated_target (dt_ self) target i) seed)
              (samples n))
    /\ List.length sols
       = List.length
           (filter (fun i => succeeds (base self) (rotated_target (dt_ self) target i) seed)
              (samples n))
    /\ (List.length sols <= Z.to_nat n)%nat.
Proof.
  intros R.
  destruct (discretized_solveIK_inversion _ _ _ _ _ _ R) as (n & N & Pre & S & E & _).
  exists n. split; [ exact S | ]. split; [ exact Pre | ].
  split; [ intros i w0; rewrite MoveItIKSolver_solveIK_eq; reflexivity | ].
  assert (sols
          = map (fun i => hd [] (attempt (base self) (rotated_target (dt_ self) target i) seed))
              (filter
                 (fun i => succeeds (base self) (rotated_target (dt_ self) target i) seed)
                 (samples n))) as Shape.
  { rewrite E. apply flat_map_short. intros i. apply attempt_length. }
  split; [ exact Shape | ].
  rewrite Shape at 1 2. rewrite length_map.
  split; [ reflexivity | ].
  rewrite <- (length_samples n). apply filter_length_le.
Qed.

End DiscretizedSolver.

(** ** Configurations have one value per joint *)

Section JointCount.

Context {eigen : EigenKernels} {collaborators : Collaborators}.



End JointCount.

(** ** The function-local static *)

Section Static.

Context {eigen : EigenKernels} {collaborators : Collaborators}.

Lemma keeps_static_loop (self : DiscretizedMoveItIKSolver) (target : Isometry3d)
  (seed : SeedMap) (count : nat) :
  forall i solutions, keeps_static (solveIK_loop self target seed count i solutions).
Proof.
  induction count as [ | count IH]; intros i solutions; cbn [solveIK_loop].
  - apply keeps_static_ret.
  - apply keeps_static_bind; [ apply keeps_static_solveIK | intros sols; apply IH ].
Qed.

Lemma keeps_static_discretized_solveIK (self : DiscretizedMoveItIKSolver)
  (target : Isometry3d) (seed : SeedMap) :
  keeps_static (DiscretizedMoveItIKSolver_solveIK self target seed).
Proof.
  unfold DiscretizedMoveItIKSolver_solveIK, reserve.
  apply keeps_static_bind; [ apply keeps_static_static_int | intros n ].
  apply keeps_static_bind; [ auto with frame | intros _; apply keeps_static_loop ].
Qed.

Lemma keeps_static_create (config : Node) :
  keeps_static (MoveItIKSolverFactory_create config).
Proof.
  unfold MoveItIKSolverFactory_create, initROS, defined.
  auto 30 with frame.
Qed.

Lemma keeps_static_create_discretized (config : Node) :
  keeps_static (DiscretizedMoveItIKSolverFactory_create config).
Proof.
  unfold DiscretizedMoveItIKSolverFactory_create, DiscretizedMoveItIKSolver_new,
    initROS, defined.
  auto 30 with frame.
Qed.

Lemma perform_keeps_static (op : operation) (w : World) (n : Z) :
  n_discretizations w = Some n -> n_discretizations (perform w op) = Some n.
Proof.
  destruct op; simpl.
  - apply keeps_static_create.
  - apply keeps_static_create_discretized.
  - apply keeps_static_solveIK.
  - apply keeps_static_discretized_solveIK.
Qed.

Lemma perform_all_keeps_static (ops : list operation) :
  forall (w : World) (n : Z),
    n_discretizations w = Some n -> n_discretizations (perform_all ops w) = Some n.
Proof.
  induction ops as [ | op ops IH]; intros w n E; [ exact E | ].
  apply IH, perform_keeps_static, E.
Qed.

(** C10: the number of discretizations is computed once per process.  When
    a first call of the discretized [solveIK], by the instance [first],
    initialises the static with [n = int(2 pi / dt_)] of that instance, then
    after any further operations of the process ([ops]: constructions and
    solves by any instances) the static still holds [n], and a call by any
    instance [self] runs its loop [n] times whatever its own [dt_]: for a
    non-negative [n] it hands exactly the [n] poses at indices [0 .. n-1] to
    the base solve. *)
Theorem sample_count_is_fixed_by_first_call (first self : DiscretizedMoveItIKSolver)
  (target target' : Isometry3d) (seed seed' : SeedMap) (ops : list operation)
  (w : World) (n : Z) :
  n_discretizations w = None ->
  double_to_int ((2 * M_PI) / dt_ first)%float = Some n ->
  let w1 := snd (DiscretizedMoveItIKSolver_solveIK first target seed w) in
  let w2 := perform_all ops w1 in
  n_discretizations w1 = Some n
  /\ n_discretizations w2 = Some n
  /\ DiscretizedMoveItIKSolver_solveIK self target' seed' w2
     = (reserve n ;; solveIK_loop self target' seed' (Z.to_nat n) 0%Z []) w2
  /\ n_discretizations (snd (DiscretizedMoveItIKSolver_solveIK self target' seed' w2))
     = Some n
  /\ ((0 <= n)%Z ->
      ik_requests (snd (DiscretizedMoveItIKSolver_solveIK self target' seed' w2))
      = ik_requests w2 ++ map (rotated_target (dt_ self) target') (samples n)).
Proof.
  intros Fresh Init w1 w2.
  assert (n_discretizations w1 = Some n) as E1.
  { unfold w1. rewrite (discretized_solveIK_first _ _ _ _ _ Fresh Init).
    apply (keeps_static_bind (reserve n)); [ unfold reserve; auto with frame | | reflexivity ].
    intros _. apply keeps_static_loop. }
  assert (n_discretizations w2 = Some n) as E2
    by (apply perform_all_keeps_static, E1).
  split; [ exact E1 | ]. split; [ exact E2 | ].
  split; [ apply discretized_solveIK_later, E2 | ].
  split; [ apply keeps_static_discretized_solveIK, E2 | ].
  intros N. rewrite (discretized_solveIK_later _ _ _ _ _ E2), (sampling_eq _ _ _ _ _ N).
  reflexivity.
Qed.

End Static.

(** ** The validity predicate *)

Section Validity.

Context {eigen : EigenKernels} {collaborators : Collaborators}.

(** The predicate as the code computes it: not colliding, and the distance
    not below the threshold. *)
Lemma isIKSolutionValid_spec (self : MoveItIKSolver) (state : RobotState)
  (jmg : JointModelGroup) (ik_solution : list double) :
  snd (isIKSolutionValid self state jmg ik_solution) = posed state jmg ik_solution
  /\ (fst (isIKSolutionValid self state jmg ik_solution) = true
      <-> isStateColliding (scene_ self) (posed state jmg ik_solution) (getName jmg) false
          = false
          /\ (distanceToCollision (scene_ self) (posed state jmg ik_solution)
                (getAllowedCollisionMatrix (scene_ self))
              <? distance_threshold_ self)%float = false).
Proof.
  unfold isIKSolutionValid, posed. simpl. split; [ reflexivity | ].
  rewrite andb_true_iff, !negb_true_iff. reflexivity.
Qed.

(** C3 (amended): when neither the distance of the posed state nor the
    threshold is a NaN, a candidate is accepted if and only if the posed
    state is not colliding and its distance to the nearest non-allowed
    obstacle is at least the threshold. *)
Theorem valid_iff_clear_of_obstacles (self : MoveItIKSolver) (state : RobotState)
  (jmg : JointModelGroup) (ik_solution : list double) :
  is_nan (distanceToCollision (scene_ self) (posed state jmg ik_solution)
            (getAllowedCollisionMatrix (scene_ self))) = false ->
  is_nan (distance_threshold_ self) = false ->
  (fst (isIKSolutionValid self state jmg ik_solution) = true
   <-> isStateColliding (scene_ self) (posed state jmg ik_solution) (getName jmg) false
       = false
       /\ (distance_threshold_ self
           <=? distanceToCollision (scene_ self) (posed state jmg ik_solution)
                 (getAllowedCollisionMatrix (scene_ self)))%float = true).
Proof.
  intros Distance Threshold.
  destruct (isIKSolutionValid_spec self state jmg ik_solution) as [_ ->].
  split; intros [Free Clear]; (split; [ exact Free | ]).
  - apply FloatOrder.not_ltb_leb; assumption.
  - apply FloatOrder.leb_not_ltb, Clear.
Qed.

End Validity.

(** ** The factories *)

Section Factories.

Context {eigen : EigenKernels} {collaborators : Collaborators}.

(** Splits a run of a command on every test it makes. *)
Ltac split_run H :=
  repeat
    (cbn [base dt_ model_ jmg_ scene_ distance_threshold_] in *;
     match type of H with
     | context [match ?x with _ => _ end] =>
         lazymatch x with
         | context [match _ with _ => _ end] => fail
         | _ => destruct x eqn:?; try discriminate H
         end
     end).

Ltac unfold_factory :=
  unfold DiscretizedMoveItIKSolverFactory_create, MoveItIKSolverFactory_create,
    DiscretizedMoveItIKSolver_new, MoveItIKSolver_new, addCollisionMesh,
    getKinematicBaseFrame, setTouchLinks, initROS, reach_get, defined, with_option,
    bind, ret, throw, undefined, print, publish in *;
  cbn [subscript String.eqb Ascii.eqb Bool.eqb yaml_as_double] in *.

(** What the discretized factory does with the angle it reads. *)
Lemma created_dt (config : Node) (w w' : World) (solver : DiscretizedMoveItIKSolver) :
  DiscretizedMoveItIKSolverFactory_create config w = (Returned solver, w') ->
  exists (text : string) (raw : double),
    subscript config "discretization_angle" = Some (Scalar text (Some raw))
    /\ dt_ solver = clamp (std_abs raw) 0%float M_PI
    /\ cout w'
       = cout w
           ++ (if (tolerance <? std_abs (std_abs raw - clamp (std_abs raw) 0%float M_PI))%float
               then [clamping_notice (clamp (std_abs raw) 0%float M_PI)]
               else []).
Proof.
  intros H. unfold_factory.
  destruct (subscript config "discretization_angle") as [[text [raw | ] | items] | ] eqn:A;
    cbn [yaml_as_double] in H.
  - exists text, raw. split; [ reflexivity | ].
    split_run H; injection H as <- <-; simpl; rewrite ?app_nil_r; auto.
  - split_run H.
  - split_run H.
  - split_run H.
Qed.

(** With another angle in the configuration the factory still builds a
    solver. *)
Lemma created_whatever_the_angle (config : Node) (text text' : string)
  (raw raw' : double) (w w' : World) (solver : DiscretizedMoveItIKSolver) :
  DiscretizedMoveItIKSolverFactory_create
    (with_option "discretization_angle" (Scalar text (Some raw)) config) w
  = (Returned solver, w') ->
  exists solver' w'',
    DiscretizedMoveItIKSolverFactory_create
      (with_option "discretization_angle" (Scalar text' (Some raw')) config) w
    = (Returned solver', w'').
Proof.
  intros H. unfold_factory.
  split_run H;
    repeat match goal with
      | |- context [if ?b then _ else _] => destruct b
      end;
    eexists; eexists; reflexivity.
Qed.

(** Neither factory reads a [collision_mesh_frame] option: a configuration
    with the option builds what the configuration without it builds. *)
Lemma collision_mesh_frame_option_is_not_read (config : Node) (value : Yaml) (w : World) :
  MoveItIKSolverFactory_create (with_option "collision_mesh_frame" value config) w
  = MoveItIKSolverFactory_create config w
  /\ DiscretizedMoveItIKSolverFactory_create
       (with_option "collision_mesh_frame" value config) w
     = DiscretizedMoveItIKSolverFactory_create config w.
Proof. split; reflexivity. Qed.

End Factories.

(** ** Runs on the bench *)

Section Bench.

Import Planar.

Local Open Scope string_scope.

(** C1: the raw angle 0 is accepted by the discretized factory and reaches
    the solver unchanged: the stored [dt_] is 0, which is not strictly
    positive; [2 pi / dt_] is then a division by zero, its quotient
    (infinity) has no [int] value, and [solveIK] leaves defined
    behaviour. *)
Theorem zero_angle_reaches_solveIK :
  exists solver : DiscretizedMoveItIKSolver,
    built (discretized_config 0%float) = Some solver
    /\ dt_ solver = 0%float
    /\ (0 <? dt_ solver)%float = false
    /\ ((2 * M_PI) / dt_ solver)%float = infinity
    /\ double_to_int ((2 * M_PI) / dt_ solver)%float = None
    /\ fst (DiscretizedMoveItIKSolver_solveIK solver (pose 1%float 0%float) [] start)
       = Undefined.
Proof.
  exists (sampling_arm 0%float empty_scene).
  repeat split; vm_compute; reflexivity.
Qed.

(** C2: on the bench both factories, given a mesh and
    [collision_mesh_frame: world], add the mesh in the kinematic base frame
    [base_link]; the frame they do honour is the one under
    [collision_mesh_key]. *)
Theorem mesh_frame_option_lands_in_base_frame :
  (exists solver w',
      MoveItIKSolverFactory_create (mesh_config "collision_mesh_frame") start
      = (Returned solver, w')
      /\ obstacle_frames solver = ["base_link"])
  /\ (exists solver w',
        DiscretizedMoveItIKSolverFactory_create
          (with_option "discretization_angle" (number "1.0" 1%float)
             (mesh_config "collision_mesh_frame")) start
        = (Returned solver, w')
        /\ obstacle_frames (base solver) = ["base_link"])
  /\ (exists solver w',
        MoveItIKSolverFactory_create (mesh_config "collision_mesh_key") start
        = (Returned solver, w')
        /\ obstacle_frames solver = ["world"]).
Proof.
  repeat split; eexists; eexists; (split; [ vm_compute; reflexivity | reflexivity ]).
Qed.

(** C3 (as stated) fails: the factory accepts [distance_threshold: .nan],
    and with the solver it builds a state that is not colliding is accepted
    although its distance, 1, is not at least the threshold. *)
Lemma nan_threshold_accepts_clear_states :
  let config :=
    [("planning_group", text "manipulator"); ("distance_threshold", number ".nan" nan)] in
  let self := arm nan empty_scene in
  let state := posed [] manipulator [0%float; 1%float] in
  fst (MoveItIKSolverFactory_create config start) = Returned self
  /\ ~ (fst (isIKSolutionValid self [] manipulator [0%float; 1%float]) = true
        <-> isStateColliding (scene_ self) state (getName manipulator) false = false
            /\ (distance_threshold_ self
                <=? distanceToCollision (scene_ self) state
                      (getAllowedCollisionMatrix (scene_ self)))%float = true).
Proof.
  intros config self state. split; [ vm_compute; reflexivity | ].
  intros [Accepted _].
  destruct (Accepted eq_refl) as [_ Clear].
  vm_compute in Clear. discriminate Clear.
Qed.

(** The amended C3 on the bench: the arm behind the part, clearance 0.05,
    candidate yaw 0 at distance 1. *)
Lemma valid_iff_clear_of_obstacles_on_bench :
  let self := arm 0x1.999999999999ap-5%float obstructed_scene in
  let state := posed [] manipulator [0%float; 1%float] in
  is_nan (distanceToCollision (scene_ self) state (getAllowedCollisionMatrix (scene_ self)))
  = false
  /\ is_nan (distance_threshold_ self) = false
  /\ (fst (isIKSolutionValid self [] manipulator [0%float; 1%float]) = true
      <-> isStateColliding (scene_ self) state (getName manipulator) false = false
          /\ (distance_threshold_ self
              <=? distanceToCollision (scene_ self) state
                    (getAllowedCollisionMatrix (scene_ self)))%float = true).
Proof.
  split; [ reflexivity | ]. split; [ reflexivity | ].
  apply (valid_iff_clear_of_obstacles
           (arm 0x1.999999999999ap-5%float obstructed_scene) []
           manipulator [0%float; 1%float]);
    reflexivity.
Defined.

(** C4: a process builds a solver with step [pi] and one with step
    [pi / 2] and calls the first, then the second.  Alone the second would
    take [int(2 pi / (pi / 2)) = 4] samples; after the first, whose call
    left 2 in the static, it makes 2 base solves, at the yaws 0 and
    [pi / 2]. *)
Theorem second_instance_inherits_sample_count :
  let first := sampling_arm M_PI empty_scene in
  let second := sampling_arm (M_PI / 2)%float empty_scene in
  let target := pose 1%float 0%float in
  let w1 := snd (DiscretizedMoveItIKSolver_solveIK first target [] start) in
  let w2 := snd (DiscretizedMoveItIKSolver_solveIK second target [] w1) in
  built (discretized_config M_PI) = Some first
  /\ built (discretized_config (M_PI / 2)%float) = Some second
  /\ double_to_int ((2 * M_PI) / dt_ first)%float = Some 2%Z
  /\ double_to_int ((2 * M_PI) / dt_ second)%float = Some 4%Z
  /\ List.length (ik_requests (snd (DiscretizedMoveItIKSolver_solveIK second target [] start)))
     = 4%nat
  /\ n_discretizations w1 = Some 2%Z
  /\ ik_requests w2
     = (ik_requests w1 ++ [pose 1%float 0%float; pose 1%float (M_PI / 2)%float])%list.
Proof.
  repeat split; vm_compute; reflexivity.
Qed.


(** C10 on the bench: a solver with step [pi] calls first; after more
    constructions and solves, a solver with step [pi / 2] still takes 2
    samples. *)
Lemma fixed_sample_count_on_bench :
  let first := sampling_arm M_PI empty_scene in
  let self := sampling_arm (M_PI / 2)%float obstructed_scene in
  let target := pose 1%float 0%float in
  let ops :=
    [CreateDiscretized (discretized_config 1%float);
     Solve (arm 0%float empty_scene) target [];
     SolveDiscretized (sampling_arm 1%float empty_scene) target []] in
  (n_discretizations start = None
   /\ double_to_int ((2 * M_PI) / dt_ first)%float = Some 2%Z
   /\ double_to_int ((2 * M_PI) / dt_ self)%float = Some 4%Z)
  /\ (let w1 := snd (DiscretizedMoveItIKSolver_solveIK first target [] start) in
      let w2 := perform_all ops w1 in
      n_discretizations w1 = Some 2%Z
      /\ n_discretizations w2 = Some 2%Z
      /\ DiscretizedMoveItIKSolver_solveIK self target [] w2
         = (reserve 2%Z ;; solveIK_loop self target [] (Z.to_nat 2%Z) 0%Z []) w2
      /\ n_discretizations (snd (DiscretizedMoveItIKSolver_solveIK self target [] w2))
         = Some 2%Z
      /\ ((0 <= 2)%Z ->
          ik_requests (snd (DiscretizedMoveItIKSolver_solveIK self target [] w2))
          = (ik_requests w2 ++ map (rotated_target (dt_ self) target) (samples 2%Z))%list)).
Proof.
  split; [ repeat split; vm_compute; reflexivity | ].
  apply (sample_count_is_fixed_by_first_call
           (sampling_arm M_PI empty_scene) (sampling_arm (M_PI / 2)%float obstructed_scene)
           (pose 1%float 0%float) (pose 1%float 0%float) [] []
           [CreateDiscretized (discretized_config 1%float);
            Solve (arm 0%float empty_scene) (pose 1%float 0%float) [];
            SolveDiscretized (sampling_arm 1%float empty_scene) (pose 1%float 0%float) []]
           start 2%Z).
  - reflexivity.
  - vm_compute. reflexivity.
Defined.

End Bench.

(** * Further properties *)

(** ** The order of binary64 numbers *)

Module FloatOrderMore.

Import FloatRank.

Lemma SFcompare_rank (x y : spec_float) :
  x <> S754_nan -> y <> S754_nan -> SFcompare x y = Some (lex (rank x) (rank y)).
Proof.
  destruct x as [sx | sx | | sx mx ex], y as [sy | sy | | sy my ey];
    intros Nx Ny; try congruence;
    try (destruct sx; reflexivity);
    try (destruct sy; reflexivity);
    try (destruct sx, sy; reflexivity).
  unfold SFcompare, rank, lex.
  destruct sx, sy; cbn [fst snd]; try reflexivity.
  rewrite Z.compare_opp, (Z.compare_antisym ex ey).
  destruct (ex ?= ey)%Z; reflexivity.
Qed.

Lemma lex_trans_lt_le (a b c : Z * Z * Z) :
  lex a b = Lt -> lex b c <> Gt -> lex a c = Lt.
Proof.
  destruct a as [[a1 a2] a3], b as [[b1 b2] b3], c as [[c1 c2] c3].
  unfold lex. cbn [fst snd].
  repeat match goal with
    | |- context [(?u ?= ?v)%Z] => destruct (Z.compare_spec u v)
    end;
    try congruence; try lia.
Qed.

Lemma ltb_leb_trans (x y z : float) :
  (x <? y)%float = true -> (y <=? z)%float = true -> (x <? z)%float = true.
Proof.
  intros L M.
  destruct (FloatOrder.ltb_not_nan _ _ L) as [Nx Ny].
  assert (Prim2SF z <> S754_nan) as Nz.
  { intros E. rewrite FloatAxioms.leb_spec in M. unfold SFleb in M. rewrite E in M.
    destruct (Prim2SF y); discriminate. }
  apply FloatOrder.is_nan_false in Nx. apply FloatOrder.is_nan_false in Ny.
  rewrite FloatAxioms.ltb_spec in *. rewrite FloatAxioms.leb_spec in M.
  unfold SFltb, SFleb in *.
  rewrite (SFcompare_rank _ _ Nx Ny) in L. rewrite (SFcompare_rank _ _ Ny Nz) in M.
  rewrite (SFcompare_rank _ _ Nx Nz).
  rewrite (lex_trans_lt_le (rank (Prim2SF x)) (rank (Prim2SF y)) (rank (Prim2SF z)));
    [ reflexivity | | ].
  - destruct (lex (rank (Prim2SF x)) (rank (Prim2SF y))); congruence.
  - destruct (lex (rank (Prim2SF y)) (rank (Prim2SF z))); congruence.
Qed.

Lemma leb_not_nan (x y : float) :
  (x <=? y)%float = true -> is_nan x = false /\ is_nan y = false.
Proof.
  rewrite FloatAxioms.leb_spec. unfold SFleb. intros E.
  split.
  - destruct (is_nan x) eqn:N; [ | reflexivity ].
    apply FloatOrder.is_nan_true in N. rewrite N in E. discriminate.
  - destruct (is_nan y) eqn:N; [ | reflexivity ].
    apply FloatOrder.is_nan_true in N. rewrite N in E.
    destruct (Prim2SF x); discriminate.
Qed.

Lemma leb_refl (x : float) : is_nan x = false -> (x <=? x)%float = true.
Proof.
  intros N. apply FloatOrder.is_nan_false in N.
  rewrite FloatAxioms.leb_spec. unfold SFleb.
  rewrite (FloatOrder.SFcompare_refl _ N). reflexivity.
Qed.

Lemma leb_not_ltb_eqb (x y : float) :
  (x <=? y)%float = true -> (x <? y)%float = false -> (x =? y)%float = true.
Proof.
  rewrite FloatAxioms.leb_spec, FloatAxioms.ltb_spec, FloatAxioms.eqb_spec.
  unfold SFleb, SFltb, SFeqb.
  destruct (SFcompare (Prim2SF x) (Prim2SF y)) as [[ | | ] | ]; congruence.
Qed.

Lemma eqb_refl (x : float) : is_nan x = false -> (x =? x)%float = true.
Proof. unfold is_nan. intros N. apply negb_false_iff in N. exact N. Qed.

Lemma abs_opp (x : float) : abs (- x) = abs x.
Proof.
  apply Prim2SF_inj. rewrite !FloatAxioms.abs_spec, FloatAxioms.opp_spec.
  destruct (Prim2SF x); reflexivity.
Qed.

Lemma abs_abs (x : float) : abs (abs x) = abs x.
Proof.
  apply Prim2SF_inj. rewrite !FloatAxioms.abs_spec. destruct (Prim2SF x); reflexivity.
Qed.

(** The difference of a number and itself is a zero or a NaN, and so is
    not above the tolerance. *)
Lemma self_difference_within_tolerance (x : float) :
  (tolerance <? abs (x - x))%float = false.
Proof.
  rewrite FloatAxioms.ltb_spec, FloatAxioms.abs_spec, FloatAxioms.sub_spec.
  destruct (Prim2SF x) as [s | s | | s m e]; try (destruct s; reflexivity);
    try reflexivity.
  unfold SF64sub, SFsub. cbv zeta. rewrite Z.sub_diag. reflexivity.
Qed.

(** A number that is not below zero and is its own absolute value is
    positive zero when it is not above zero. *)
Lemma abs_not_positive (x : float) :
  (0 <=? abs x)%float = true -> (0 <? abs x)%float = false -> abs x = 0%float.
Proof.
  intros L N. apply Prim2SF_inj.
  rewrite FloatAxioms.leb_spec in L. rewrite FloatAxioms.ltb_spec in N.
  rewrite FloatAxioms.abs_spec in *. unfold SFleb in L. unfold SFltb in N.
  destruct (Prim2SF x) as [s | s | | s m e]; try discriminate; reflexivity.
Qed.

Lemma abs_not_negative (x : float) : is_nan (abs x) = false -> (0 <=? abs x)%float = true.
Proof.
  intros N. apply FloatOrder.is_nan_false in N.
  rewrite FloatAxioms.leb_spec. rewrite FloatAxioms.abs_spec in *.
  destruct (Prim2SF x) as [s | s | | s m e]; try reflexivity.
  exfalso. apply N. reflexivity.
Qed.

End FloatOrderMore.

(** ** clamp *)

Lemma ltb_asym (x y : float) : (x <? y)%float = true -> (y <? x)%float = false.
Proof. intros L. apply FloatOrder.leb_not_ltb, FloatOrder.ltb_leb, L. Qed.

Lemma ltb_irrefl (x : float) : (x <? x)%float = false.
Proof.
  destruct (x <? x)%float eqn:L; [ | reflexivity ].
  rewrite (ltb_asym _ _ L) in L. discriminate.
Qed.

(** X1: for bounds [low <= high], [clamp val low high] lies between [low]
    and [high] for every [val], a NaN included. *)
Theorem clamp_within_bounds (val low high : double) :
  (low <=? high)%float = true ->
  (low <=? clamp val low high)%float = true
  /\ (clamp val low high <=? high)%float = true.
Proof.
  intros B. destruct (FloatOrderMore.leb_not_nan _ _ B) as [Nl Nh].
  unfold clamp, std_max, std_min.
  destruct (high <? val)%float eqn:H.
  - destruct (low <? high)%float eqn:L.
    + split; [ exact B | apply FloatOrderMore.leb_refl, Nh ].
    + split; [ apply FloatOrderMore.leb_refl, Nl | exact B ].
  - destruct (low <? val)%float eqn:L.
    + split; [ apply FloatOrder.ltb_leb, L | ].
      apply FloatOrder.not_ltb_leb; [ exact Nh | | exact H ].
      apply (FloatOrder.ltb_not_nan _ _ L).
    + split; [ apply FloatOrderMore.leb_refl, Nl | exact B ].
Qed.

Lemma clamp_within_bounds_witness :
  (0 <=? M_PI)%float = true
  /\ (0 <=? clamp 7%float 0%float M_PI)%float = true
  /\ (clamp 7%float 0%float M_PI <=? M_PI)%float = true.
Proof.
  split; [ reflexivity | ].
  apply (clamp_within_bounds 7%float 0%float M_PI). reflexivity.
Defined.

Lemma clamp_fixes (val low high : double) :
  (low <=? val)%float = true ->
  (val <=? high)%float = true ->
  (clamp val low high =? val)%float = true
  /\ ((low <? val)%float = true -> clamp val low high = val).
Proof.
  intros L H. unfold clamp, std_max, std_min.
  rewrite (FloatOrder.leb_not_ltb _ _ H).
  destruct (low <? val)%float eqn:S.
  - split; [ | reflexivity ].
    apply FloatOrderMore.eqb_refl. apply (FloatOrder.ltb_not_nan _ _ S).
  - split; [ | discriminate ].
    apply FloatOrderMore.leb_not_ltb_eqb; assumption.
Qed.

(** X2: a value already between the bounds is returned as it is: the result
    compares equal to [val], and is [val] itself when [val] is above
    [low]. *)
Theorem clamp_keeps_values_in_range (val low high : double) :
  (low <=? val)%float = true ->
  (val <=? high)%float = true ->
  (clamp val low high =? val)%float = true
  /\ ((low <? val)%float = true -> clamp val low high = val).
Proof. exact (clamp_fixes val low high). Qed.

Lemma clamp_keeps_values_in_range_witness :
  ((0 <=? 1)%float = true /\ (1 <=? M_PI)%float = true)
  /\ (clamp 1%float 0%float M_PI =? 1)%float = true
  /\ ((0 <? 1)%float = true -> clamp 1%float 0%float M_PI = 1%float).
Proof.
  split; [ split; reflexivity | ].
  apply (clamp_keeps_values_in_range 1%float 0%float M_PI); reflexivity.
Defined.

Lemma all_nans_are_nan (x : float) : is_nan x = true -> x = nan.
Proof.
  intros N. apply Prim2SF_inj. rewrite (FloatOrder.is_nan_true _ N). reflexivity.
Qed.

Lemma clamp_twice (val low high : double) :
  clamp (clamp val low high) low high = clamp val low high.
Proof.
  unfold clamp, std_max, std_min.
  destruct (high <? val)%float eqn:H.
  - destruct (low <? high)%float eqn:L.
    + rewrite ltb_irrefl, L. reflexivity.
    + destruct (high <? low)%float; rewrite ?L, ?ltb_irrefl; reflexivity.
  - destruct (low <? val)%float eqn:L.
    + rewrite H, L. reflexivity.
    + destruct (high <? low)%float eqn:G; rewrite ?(ltb_asym _ _ G), ?ltb_irrefl;
        reflexivity.
Qed.

(** X3: [clamp] is idempotent for all values and bounds, and it sends a NaN
    value to [low] whatever the bounds. *)
Theorem clamp_idempotent (val low high : double) :
  clamp (clamp val low high) low high = clamp val low high
  /\ clamp nan low high = low.
Proof.
  split; [ apply clamp_twice | ].
  unfold clamp, std_max, std_min.
  destruct (high <? nan)%float eqn:H.
  - destruct (FloatOrder.ltb_not_nan _ _ H) as [_ C]. discriminate C.
  - destruct (low <? nan)%float eqn:L; [ | reflexivity ].
    destruct (FloatOrder.ltb_not_nan _ _ L) as [_ C]. discriminate C.
Qed.

(** ** More on the factories *)

Section FactoriesMore.

Context {eigen : EigenKernels} {collaborators : Collaborators}.

Local Open Scope string_scope.

Ltac unfold_all :=
  unfold DiscretizedMoveItIKSolverFactory_create, MoveItIKSolverFactory_create,
    DiscretizedMoveItIKSolver_new, MoveItIKSolver_new, addCollisionMesh,
    getKinematicBaseFrame, setTouchLinks, getJointNames, initROS, reach_get,
    defined, configured, with_option, bind, ret, throw, undefined, print, publish in *;
  cbn [subscript String.eqb Ascii.eqb Bool.eqb yaml_as_double] in *.

Ltac simplify_records :=
  cbn [base dt_ model_ jmg_ scene_ distance_threshold_ fst snd] in *.

(** Splits the run in hypothesis [H] on every test it makes. *)
Ltac split_on H :=
  repeat
    (simplify_records;
     match type of H with
     | context [match ?x with _ => _ end] =>
         lazymatch x with
         | context [match _ with _ => _ end] => fail
         | _ => destruct x eqn:?; try discriminate H
         end
     end).

(** Splits the run in the goal on every test it makes. *)
Ltac split_goal :=
  repeat
    (simplify_records;
     match goal with
     | |- context [match ?x with _ => _ end] =>
         lazymatch x with
         | context [match _ with _ => _ end] => fail
         | _ => destruct x eqn:?
         end
     end).

(** X4: [MoveItIKSolverFactory::create] throws a [std::runtime_error], with
    nothing published or printed, when [planning_group] is missing or no
    string, when [distance_threshold] is missing or no number, when the
    shared robot model is unavailable, or when the model has no group of
    the configured name. *)
Theorem create_fails_before_any_effect (config : Node) (w : World) :
  configured yaml_as_string config "planning_group" = None
  \/ configured yaml_as_double config "distance_threshold" = None
  \/ getSharedRobotModel "robot_description" = None
  \/ (exists pg model,
         configured yaml_as_string config "planning_group" = Some pg
         /\ getSharedRobotModel "robot_description" = Some model
         /\ getJointModelGroup model pg = None) ->
  exists what, MoveItIKSolverFactory_create config w = (Thrown (runtime_error what), w).
Proof.
  intros H. unfold_all.
  destruct H as [H | [H | [H | (pg & model & P & M & G)]]].
  - destruct (subscript config "planning_group") as [y | ];
      [ rewrite H | ]; eexists; reflexivity.
  - destruct (subscript config "planning_group") as [y | ];
      [ destruct (yaml_as_string y) | ]; try (eexists; reflexivity).
    destruct (subscript config "distance_threshold") as [y0 | ];
      [ rewrite H | ]; eexists; reflexivity.
  - rewrite H. split_goal; eexists; reflexivity.
  - rewrite M.
    destruct (subscript config "planning_group") as [y | ]; [ | discriminate P ].
    rewrite P. rewrite G. split_goal; eexists; reflexivity.
Qed.

(** X5: a solver built by [MoveItIKSolverFactory::create] has the shared
    robot model, the group the model gives for the configured
    [planning_group], and the configured [distance_threshold]; its
    [getJointNames()] are that group's active joint names. *)
Theorem built_solver_is_as_configured (config : Node) (w w' : World)
  (solver : MoveItIKSolver) :
  MoveItIKSolverFactory_create config w = (Returned solver, w') ->
  exists pg threshold model jmg,
    configured yaml_as_string config "planning_group" = Some pg
    /\ configured yaml_as_double config "distance_threshold" = Some threshold
    /\ getSharedRobotModel "robot_description" = Some model
    /\ getJointModelGroup model pg = Some jmg
    /\ model_ solver = model
    /\ jmg_ solver = jmg
    /\ distance_threshold_ solver = threshold
    /\ getJointNames solver = getActiveJointModelNames jmg.
Proof.
  intros H. unfold_all.
  split_on H; injection H as <- <-; simplify_records;
    repeat eexists; eassumption.
Qed.

Lemma published_published (a b : list PlanningSceneMsg) (w : World) :
  published b (published a w) = published (a ++ b) w.
Proof. unfold published. simpl. rewrite app_assoc. reflexivity. Qed.

(** X6: when the configuration has no [collision_mesh_filename], a solver
    built by [MoveItIKSolverFactory::create] has a fresh planning scene of
    the model, with the allowed-collision entry of [touch_links] for
    "reach_object" when those are configured; a [collision_mesh_key] is not
    looked at; and the one message published is the fresh scene's, before
    the touch links are set. *)
Theorem factory_without_mesh (config : Node) (w w' : World) (solver : MoveItIKSolver) :
  defined config "collision_mesh_filename" = false ->
  MoveItIKSolverFactory_create config w = (Returned solver, w') ->
  scene_ solver
  = match configured yaml_as_strings config "touch_links" with
    | Some touch_links =>
        setEntry (PlanningScene_new (model_ solver)) COLLISION_OBJECT_NAME touch_links true
    | None => PlanningScene_new (model_ solver)
    end
  /\ w' = published [getPlanningSceneMsg (PlanningScene_new (model_ solver))] w.
Proof.
  intros M H. unfold_all.
  destruct (subscript config "collision_mesh_filename"); [ discriminate M | ].
  split_on H; injection H as <- <-; simplify_records; split; reflexivity.
Qed.

(** X7: when the configuration names a mesh, a solver built by
    [MoveItIKSolverFactory::create] holds the scene that
    [processCollisionObjectMsg] made of the fresh scene and the object
    created from the mesh under the name "reach_object", in the frame
    configured under [collision_mesh_key] or else in the base frame of the
    group's solver instance; [touch_links], when configured, are set on that
    scene; and exactly two messages were published: the fresh scene, then
    the scene with the object, before the touch links are set. *)
Theorem factory_with_mesh (config : Node) (w w' : World) (solver : MoveItIKSolver)
  (filename : string) :
  configured yaml_as_string config "collision_mesh_filename" = Some filename ->
  MoveItIKSolverFactory_create config w = (Returned solver, w') ->
  exists frame obj scene,
    (configured yaml_as_string config "collision_mesh_key" = Some frame
     \/ (defined config "collision_mesh_key" = false
         /\ exists kinematics,
              getSolverInstance (jmg_ solver) = Some kinematics
              /\ frame = getBaseFrame kinematics))
    /\ createCollisionObject filename frame COLLISION_OBJECT_NAME = inr obj
    /\ processCollisionObjectMsg (PlanningScene_new (model_ solver)) obj = (true, scene)
    /\ scene_ solver
       = match configured yaml_as_strings config "touch_links" with
         | Some touch_links => setEntry scene COLLISION_OBJECT_NAME touch_links true
         | None => scene
         end
    /\ w' = published
              [getPlanningSceneMsg (PlanningScene_new (model_ solver));
               getPlanningSceneMsg scene] w.
Proof.
  intros M H. unfold_all.
  destruct (subscript config "collision_mesh_filename") as [y | ]; [ | discriminate M ].
  rewrite M in H.
  split_on H; injection H as <- <-; simplify_records;
    eexists; eexists; eexists;
    (split; [ | split; [ eassumption | split; [ eassumption | split;
       [ reflexivity | unfold published; simpl; rewrite <- app_assoc; reflexivity ] ] ] ]);
    first [ left; reflexivity | right; split; [ reflexivity | eexists; split;
       [ eassumption | reflexivity ] ] ].
Qed.

(** X8: on a configuration with a numeric [discretization_angle], the
    discretized factory does what [MoveItIKSolverFactory::create] does, and
    adds the clamped step: when the latter returns a solver, the former
    returns that solver with [dt_] set, in the same process state but for
    the clamping notice, if one is due; when the latter throws, the former
    throws the same exception. *)
Theorem discretized_factory_extends_factory (config : Node) (raw : double) (w : World) :
  configured yaml_as_double config "discretization_angle" = Some raw ->
  match MoveItIKSolverFactory_create config w with
  | (Returned solver, w') =>
      DiscretizedMoveItIKSolverFactory_create config w
      = (Returned {| base := solver; dt_ := clamp (std_abs raw) 0%float M_PI |},
         printed (notice_for raw) w')
  | (Thrown e, _) => fst (DiscretizedMoveItIKSolverFactory_create config w) = Thrown e
  | (Undefined, _) => fst (DiscretizedMoveItIKSolverFactory_create config w) = Undefined
  end.
Proof.
  intros A. unfold notice_for, printed, clamping_notice. unfold_all.
  destruct (subscript config "discretization_angle") as [y | ]; [ | discriminate A ].
  rewrite A.
  split_goal; simplify_records; cbn [cout n_discretizations planning_scene_topic ik_requests];
    rewrite ?app_nil_r; try reflexivity;
    repeat match goal with w0 : World |- _ => destruct w0 end; reflexivity.
Qed.

(** X9: without a numeric [discretization_angle] the discretized factory
    throws a [std::runtime_error] and leaves the process as it was: nothing
    is printed or published. *)
Theorem discretized_create_needs_angle (config : Node) (w : World) :
  configured yaml_as_double config "discretization_angle" = None ->
  exists what,
    DiscretizedMoveItIKSolverFactory_create config w = (Thrown (runtime_error what), w).
Proof.
  intros A. unfold_all.
  destruct (subscript config "discretization_angle") as [y | ];
    [ rewrite A | ]; split_goal; eexists; reflexivity.
Qed.

(** X10: the sign of the configured angle does not matter: the discretized
    factory does the same with [-raw] as with [raw]. *)
Theorem angle_sign_is_irrelevant (config : Node) (text text' : string) (raw : double)
  (w : World) :
  DiscretizedMoveItIKSolverFactory_create
    (with_option "discretization_angle" (Scalar text (Some (- raw)%float)) config) w
  = DiscretizedMoveItIKSolverFactory_create
      (with_option "discretization_angle" (Scalar text' (Some raw)) config) w.
Proof.
  unfold_all. unfold std_abs. rewrite FloatOrderMore.abs_opp. reflexivity.
Qed.

Lemma clamp_abs_in_range (raw : double) :
  (std_abs raw <=? M_PI)%float = true ->
  clamp (std_abs raw) 0%float M_PI = std_abs raw.
Proof.
  intros H. destruct (FloatOrderMore.leb_not_nan _ _ H) as [N _].
  pose proof (FloatOrderMore.abs_not_negative raw N) as L.
  destruct (0 <? std_abs raw)%float eqn:S.
  - apply (clamp_fixes _ _ _ L H), S.
  - unfold clamp, std_max, std_min.
    rewrite (FloatOrder.leb_not_ltb _ _ H), S.
    symmetry. apply FloatOrderMore.abs_not_positive; assumption.
Qed.

(** X11: an angle whose absolute value is at most pi is stored as that
    absolute value, and the factory prints no notice. *)
Theorem angle_in_range_is_kept_silently (config : Node) (raw : double) (w w' : World)
  (solver : DiscretizedMoveItIKSolver) :
  configured yaml_as_double config "discretization_angle" = Some raw ->
  (std_abs raw <=? M_PI)%float = true ->
  DiscretizedMoveItIKSolverFactory_create config w = (Returned solver, w') ->
  dt_ solver = std_abs raw /\ cout w' = cout w.
Proof.
  intros A R H.
  destruct (created_dt _ _ _ _ H) as (text & raw0 & S & D & C).
  unfold configured in A. rewrite S in A. cbn in A. injection A as ->.
  rewrite (clamp_abs_in_range _ R) in D, C.
  split; [ exact D | ].
  unfold std_abs in C. rewrite FloatOrderMore.self_difference_within_tolerance in C.
  rewrite app_nil_r in C. exact C.
Qed.

Lemma clamp_above_pi (val : double) :
  (M_PI <? val)%float = true -> clamp val 0%float M_PI = M_PI.
Proof.
  intros H. unfold clamp, std_max, std_min. rewrite H. reflexivity.
Qed.

(** X17: every angle whose absolute value is above pi gives the solver that
    the angle pi gives: the discretized factory has the same outcome, with
    [dt_ = pi] in the solver it returns. *)
Theorem angles_above_pi_behave_as_pi (config : Node) (text text' : string) (raw : double)
  (w : World) :
  (M_PI <? std_abs raw)%float = true ->
  fst (DiscretizedMoveItIKSolverFactory_create
         (with_option "discretization_angle" (Scalar text (Some raw)) config) w)
  = fst (DiscretizedMoveItIKSolverFactory_create
           (with_option "discretization_angle" (Scalar text' (Some M_PI)) config) w)
  /\ forall solver w',
       DiscretizedMoveItIKSolverFactory_create
         (with_option "discretization_angle" (Scalar text (Some raw)) config) w
       = (Returned solver, w') ->
       dt_ solver = M_PI.
Proof.
  intros H. split.
  - unfold_all. rewrite (clamp_above_pi _ H).
    replace (clamp (std_abs M_PI) 0%float M_PI) with M_PI by reflexivity.
    replace (tolerance <? std_abs (std_abs M_PI - M_PI))%float with false by reflexivity.
    split_goal; reflexivity.
  - intros solver w' R.
    destruct (created_dt _ _ _ _ R) as (t & r & S & D & _).
    cbn in S. injection S as <- <-. rewrite D. apply clamp_above_pi, H.
Qed.

End FactoriesMore.

(** ** What constructions and solves leave alone *)

Section Footprints.

Context {eigen : EigenKernels} {collaborators : Collaborators}.

Lemma silent_ret {A : Type} (a : A) : silent (ret a).
Proof. intros w. split; reflexivity. Qed.

Lemma silent_throw {A : Type} (e : exception) : silent (@throw _ _ A e).
Proof. intros w. split; reflexivity. Qed.

Lemma silent_undefined {A : Type} : silent (@undefined _ _ A).
Proof. intros w. split; reflexivity. Qed.

Lemma silent_request_ik (target : Isometry3d) : silent (request_ik target).
Proof. intros w. split; reflexivity. Qed.

Lemma silent_static_int (init : option Z) : silent (static_int init).
Proof.
  intros w. unfold static_int.
  destruct (n_discretizations w); [ | destruct init ]; split; reflexivity.
Qed.

Lemma silent_bind {A B : Type} (c : Cmd A) (k : A -> Cmd B) :
  silent c -> (forall a, silent (k a)) -> silent (bind c k).
Proof.
  intros Hc Hk w. unfold bind.
  destruct (Hc w) as [C T]. destruct (c w) as [[a | e | ] w1]; simpl in *.
  - destruct (Hk a w1) as [C' T']. split; congruence.
  - split; assumption.
  - split; assumption.
Qed.

Lemma solves_nothing_ret {A : Type} (a : A) : solves_nothing (ret a).
Proof. intros w. split; reflexivity. Qed.

Lemma solves_nothing_throw {A : Type} (e : exception) : solves_nothing (@throw _ _ A e).
Proof. intros w. split; reflexivity. Qed.

Lemma solves_nothing_undefined {A : Type} : solves_nothing (@undefined _ _ A).
Proof. intros w. split; reflexivity. Qed.

Lemma solves_nothing_print (s : string) : solves_nothing (print s).
Proof. intros w. split; reflexivity. Qed.

Lemma solves_nothing_publish (msg : PlanningSceneMsg) : solves_nothing (publish msg).
Proof. intros w. split; reflexivity. Qed.

Lemma solves_nothing_bind {A B : Type} (c : Cmd A) (k : A -> Cmd B) :
  solves_nothing c -> (forall a, solves_nothing (k a)) -> solves_nothing (bind c k).
Proof.
  intros Hc Hk w. unfold bind.
  destruct (Hc w) as [C T]. destruct (c w) as [[a | e | ] w1]; simpl in *.
  - destruct (Hk a w1) as [C' T']. split; congruence.
  - split; assumption.
  - split; assumption.
Qed.

End Footprints.

Create HintDb footprint.

#[local] Hint Resolve silent_ret silent_throw silent_undefined silent_request_ik
  silent_static_int silent_bind solves_nothing_ret solves_nothing_throw
  solves_nothing_undefined solves_nothing_print solves_nothing_publish
  solves_nothing_bind : footprint.

#[local] Hint Extern 1 (silent (match ?x with _ => _ end)) => destruct x : footprint.

#[local] Hint Extern 1 (solves_nothing (match ?x with _ => _ end)) =>
  destruct x : footprint.

Section FootprintsOfTheProgram.

Context {eigen : EigenKernels} {collaborators : Collaborators}.

Lemma silent_solveIK (self : MoveItIKSolver) (target : Isometry3d) (seed : SeedMap) :
  silent (MoveItIKSolver_solveIK self target seed).
Proof. unfold MoveItIKSolver_solveIK. auto with footprint. Qed.

Lemma silent_loop (self : DiscretizedMoveItIKSolver) (target : Isometry3d)
  (seed : SeedMap) (count : nat) :
  forall i solutions, silent (solveIK_loop self target seed count i solutions).
Proof.
  induction count as [ | count IH]; intros i solutions; cbn [solveIK_loop].
  - apply silent_ret.
  - apply silent_bind; [ apply silent_solveIK | intros sols; apply IH ].
Qed.

(** X12: solving is silent: neither [solveIK] writes to [std::cout] or
    publishes a scene, whatever its outcome; and the base [solveIK] leaves
    the static of the discretized one as it is. *)
Theorem solving_is_silent (self : DiscretizedMoveItIKSolver) (target : Isometry3d)
  (seed : SeedMap) (w : World) :
  (cout (snd (MoveItIKSolver_solveIK (base self) target seed w)) = cout w
   /\ planning_scene_topic (snd (MoveItIKSolver_solveIK (base self) target seed w))
      = planning_scene_topic w
   /\ n_discretizations (snd (MoveItIKSolver_solveIK (base self) target seed w))
      = n_discretizations w)
  /\ cout (snd (DiscretizedMoveItIKSolver_solveIK self target seed w)) = cout w
  /\ planning_scene_topic (snd (DiscretizedMoveItIKSolver_solveIK self target seed w))
     = planning_scene_topic w.
Proof.
  split.
  - rewrite MoveItIKSolver_solveIK_eq. repeat split.
  - apply (silent_bind (static_int _)); [ apply silent_static_int | intros n ].
    apply silent_bind; [ unfold reserve; auto with footprint | intros _ ].
    apply silent_loop.
Qed.

Lemma construction_footprint (config : Node) (w : World) :
  (n_discretizations (snd (MoveItIKSolverFactory_create config w)) = n_discretizations w
   /\ ik_requests (snd (MoveItIKSolverFactory_create config w)) = ik_requests w)
  /\ n_discretizations (snd (DiscretizedMoveItIKSolverFactory_create config w))
     = n_discretizations w
  /\ ik_requests (snd (DiscretizedMoveItIKSolverFactory_create config w)) = ik_requests w.
Proof.
  split.
  - assert (solves_nothing (MoveItIKSolverFactory_create config)) as S.
    { unfold MoveItIKSolverFactory_create, MoveItIKSolver_new, addCollisionMesh,
        getKinematicBaseFrame, initROS, reach_get, defined.
      auto 40 with footprint. }
    apply S.
  - assert (solves_nothing (DiscretizedMoveItIKSolverFactory_create config)) as S.
    { unfold DiscretizedMoveItIKSolverFactory_create, DiscretizedMoveItIKSolver_new,
        MoveItIKSolver_new, addCollisionMesh, getKinematicBaseFrame, initROS, reach_get,
        defined.
      auto 40 with footprint. }
    apply S.
Qed.

(** X13: construction solves nothing: neither factory calls the numerical
    IK routine or touches the static of the discretized [solveIK], whatever
    the configuration and the outcome. *)
Theorem construction_solves_nothing (config : Node) (w : World) :
  (n_discretizations (snd (MoveItIKSolverFactory_create config w)) = n_discretizations w
   /\ ik_requests (snd (MoveItIKSolverFactory_create config w)) = ik_requests w)
  /\ n_discretizations (snd (DiscretizedMoveItIKSolverFactory_create config w))
     = n_discretizations w
  /\ ik_requests (snd (DiscretizedMoveItIKSolverFactory_create config w)) = ik_requests w.
Proof. exact (construction_footprint config w). Qed.

End FootprintsOfTheProgram.

(** ** More on the two solvers *)

Section SolversMore.

Context {eigen : EigenKernels} {collaborators : Collaborators}.

Local Open Scope string_scope.

Lemma in_samples (n i : Z) : In i (samples n) <-> (0 <= i < n)%Z.
Proof.
  unfold samples. rewrite in_map_iff. split.
  - intros (k & <- & K). apply in_seq in K. lia.
  - intros I. exists (Z.to_nat i). split; [ lia | ]. apply in_seq. lia.
Qed.

Lemma flat_map_nil {A B : Type} (f : A -> list B) (l : list A) :
  flat_map f l = [] <-> forall x, In x l -> f x = [].
Proof.
  induction l as [ | x l IH]; cbn [flat_map].
  - split; [ intros _ y [] | reflexivity ].
  - split.
    + intros E. apply app_eq_nil in E. destruct E as [E1 E2].
      intros y [<- | I]; [ exact E1 | apply IH; assumption ].
    + intros H. rewrite (H x (or_introl eq_refl)).
      apply IH. intros y I. apply H. right. exact I.
Qed.

(** X14: a discretized [solveIK] whose sample count [n] (the static's value,
    or the value its own [dt_] initialises the static with) is not positive
    makes no base solve: for [n = 0] it returns the empty sequence, and for
    a negative [n] the [reserve] call throws [std::length_error]; either way
    the static holds [n] afterwards. *)
Theorem nonpositive_sample_count (self : DiscretizedMoveItIKSolver) (target : Isometry3d)
  (seed : SeedMap) (w : World) (n : Z) :
  n_discretizations w = Some n
  \/ (n_discretizations w = None
      /\ double_to_int ((2 * M_PI) / dt_ self)%float = Some n) ->
  (n <= 0)%Z ->
  fst (DiscretizedMoveItIKSolver_solveIK self target seed w)
  = (if (n <? 0)%Z then Thrown (length_error "vector::reserve") else Returned [])
  /\ ik_requests (snd (DiscretizedMoveItIKSolver_solveIK self target seed w))
     = ik_requests w
  /\ n_discretizations (snd (DiscretizedMoveItIKSolver_solveIK self target seed w))
     = Some n.
Proof.
  intros S N.
  assert (forall w0,
             n_discretizations w0 = Some n ->
             (reserve n ;; solveIK_loop self target seed (Z.to_nat n) 0%Z []) w0
             = (if (n <? 0)%Z then Thrown (length_error "vector::reserve") else Returned [],
                w0)) as Run.
  { intros w0 _. unfold bind, reserve.
    destruct (n <? 0)%Z eqn:L; [ reflexivity | ].
    apply Z.ltb_ge in L. replace n with 0%Z by lia. reflexivity. }
  destruct S as [S | [S I]].
  - rewrite (discretized_solveIK_later _ _ _ _ _ S), (Run w S).
    repeat split. exact S.
  - rewrite (discretized_solveIK_first _ _ _ _ _ S I), (Run (initialised n w) eq_refl).
    repeat split.
Qed.

(** X15: a discretized [solveIK] that returns gives the empty sequence
    exactly when the base solve fails at every sampled pose. *)
Theorem empty_iff_every_sample_fails (self : DiscretizedMoveItIKSolver)
  (target : Isometry3d) (seed : SeedMap) (w w' : World) (sols : list (list double)) :
  DiscretizedMoveItIKSolver_solveIK self target seed w = (Returned sols, w') ->
  exists n : Z,
    n_discretizations w' = Some n
    /\ (sols = []
        <-> forall i : Z,
              (0 <= i < n)%Z ->
              fst (ik_answer (base self) (rotated_target (dt_ self) target i) seed) = false).
Proof.
  intros R.
  destruct (discretized_solveIK_inversion _ _ _ _ _ _ R) as (n & _ & _ & S & -> & _).
  exists n. split; [ exact S | ].
  rewrite flat_map_nil. split.
  - intros H i I. specialize (H i (proj2 (in_samples n i) I)).
    unfold attempt in H. destruct (fst _); [ discriminate H | reflexivity ].
  - intros H i I. unfold attempt. rewrite (H i (proj1 (in_samples n i) I)). reflexivity.
Qed.

(** X16: lowering the clearance threshold never rejects what was accepted:
    a candidate accepted by a solver is accepted by a solver on the same
    scene whose [distance_threshold_] is at most the first one's. *)
Theorem lower_threshold_accepts_more (self self' : MoveItIKSolver) (state : RobotState)
  (jmg : JointModelGroup) (ik_solution : list double) :
  scene_ self' = scene_ self ->
  (distance_threshold_ self' <=? distance_threshold_ self)%float = true ->
  fst (isIKSolutionValid self state jmg ik_solution) = true ->
  fst (isIKSolutionValid self' state jmg ik_solution) = true.
Proof.
  intros Scene Lower Accepted.
  apply (isIKSolutionValid_spec self) in Accepted. destruct Accepted as [Free Clear].
  apply (isIKSolutionValid_spec self'). rewrite Scene. split; [ exact Free | ].
  destruct (_ <? distance_threshold_ self')%float eqn:Close; [ | reflexivity ].
  rewrite (FloatOrderMore.ltb_leb_trans _ _ _ Close Lower) in Clear. discriminate Clear.
Qed.

(** X18: the first discretized [solveIK] of a process, by a solver whose
    [int(2 pi / dt_)] is a non-negative [n], returns normally, leaves [n]
    in the static, and hands exactly the [n] poses of the indices
    [0 .. n-1] to the base solve, one request each and in this order,
    whether or not earlier ones succeeded. *)
Theorem first_call_takes_its_own_samples (self : DiscretizedMoveItIKSolver)
  (target : Isometry3d) (seed : SeedMap) (w : World) (n : Z) :
  n_discretizations w = None ->
  double_to_int ((2 * M_PI) / dt_ self)%float = Some n ->
  (0 <= n)%Z ->
  exists sols w',
    DiscretizedMoveItIKSolver_solveIK self target seed w = (Returned sols, w')
    /\ n_discretizations w' = Some n
    /\ ik_requests w'
       = (ik_requests w ++ map (rotated_target (dt_ self) target) (samples n))%list
    /\ List.length (ik_requests w') = (List.length (ik_requests w) + Z.to_nat n)%nat.
Proof.
  intros Fresh Init N.
  rewrite (first_call_samples _ _ _ _ _ Fresh Init N).
  eexists. eexists. split; [ reflexivity | ].
  split; [ reflexivity | ]. split; [ reflexivity | ].
  cbn [requested ik_requests]. rewrite length_app, length_map, length_samples. reflexivity.
Qed.

Lemma perform_other_keeps_static (op : operation) (w : World) :
  is_discretized_solve op = false ->
  n_discretizations (perform w op) = n_discretizations w.
Proof.
  destruct op as [config | config | solver target seed | solver target seed];
    intros O; try discriminate O; cbn [perform].
  - apply (construction_footprint config w).
  - apply (construction_footprint config w).
  - rewrite MoveItIKSolver_solveIK_eq. reflexivity.
Qed.

(** X19: only the discretized [solveIK] sets the static: a sequence of
    constructions and base solves, of any length, leaves the static as it
    was, so in particular uninitialised. *)
Theorem only_discretized_solve_sets_static (ops : list operation) (w : World) :
  forallb (fun op => negb (is_discretized_solve op)) ops = true ->
  n_discretizations (perform_all ops w) = n_discretizations w.
Proof.
  revert w. induction ops as [ | op ops IH]; intros w O; [ reflexivity | ].
  cbn [forallb] in O. apply andb_true_iff in O. destruct O as [O Rest].
  apply negb_true_iff in O.
  unfold perform_all. cbn [fold_left]. fold (perform_all ops (perform w op)).
  rewrite (IH _ Rest). apply perform_other_keeps_static, O.
Qed.

End SolversMore.

(** ** More runs on the bench *)

Section BenchMore.

Import Planar.

Local Open Scope string_scope.

(** X4 on the bench: the empty configuration. *)
Lemma create_fails_on_bench :
  (configured yaml_as_string [] "planning_group" = None
   \/ configured yaml_as_double [] "distance_threshold" = None
   \/ getSharedRobotModel "robot_description" = None
   \/ (exists pg model,
          configured yaml_as_string [] "planning_group" = Some pg
          /\ getSharedRobotModel "robot_description" = Some model
          /\ getJointModelGroup model pg = None))
  /\ exists what, MoveItIKSolverFactory_create [] start = (Thrown (runtime_error what), start).
Proof.
  split; [ left; reflexivity | ].
  apply (create_fails_before_any_effect [] start). left. reflexivity.
Defined.

(** X5 on the bench: the arm's configuration. *)
Lemma built_solver_on_bench :
  let run := MoveItIKSolverFactory_create base_config start in
  let solver := value_or (arm 0%float empty_scene) (fst run) in
  run = (Returned solver, snd run)
  /\ exists pg threshold model jmg,
       configured yaml_as_string base_config "planning_group" = Some pg
       /\ configured yaml_as_double base_config "distance_threshold" = Some threshold
       /\ getSharedRobotModel "robot_description" = Some model
       /\ getJointModelGroup model pg = Some jmg
       /\ model_ solver = model
       /\ jmg_ solver = jmg
       /\ distance_threshold_ solver = threshold
       /\ getJointNames solver = getActiveJointModelNames jmg.
Proof.
  split; [ vm_compute; reflexivity | ].
  apply (built_solver_is_as_configured base_config start
           (snd (MoveItIKSolverFactory_create base_config start))).
  vm_compute. reflexivity.
Defined.

(** X6 on the bench: touch links and a stray frame, no mesh. *)
Lemma factory_without_mesh_on_bench :
  let config :=
    with_option "touch_links" (Sequence ["link_6"])
      (with_option "collision_mesh_key" (text "world") base_config) in
  let run := MoveItIKSolverFactory_create config start in
  let solver := value_or (arm 0%float empty_scene) (fst run) in
  (defined config "collision_mesh_filename" = false
   /\ run = (Returned solver, snd run))
  /\ scene_ solver
     = match configured yaml_as_strings config "touch_links" with
       | Some touch_links =>
           setEntry (PlanningScene_new (model_ solver)) COLLISION_OBJECT_NAME touch_links
             true
       | None => PlanningScene_new (model_ solver)
       end
  /\ snd run = published [getPlanningSceneMsg (PlanningScene_new (model_ solver))] start.
Proof.
  split; [ split; vm_compute; reflexivity | ].
  apply (factory_without_mesh
           (with_option "touch_links" (Sequence ["link_6"])
              (with_option "collision_mesh_key" (text "world") base_config))
           start).
  - reflexivity.
  - vm_compute. reflexivity.
Defined.

(** X7 on the bench: the part, in the frame given under
    [collision_mesh_key]. *)
Lemma factory_with_mesh_on_bench :
  let config := mesh_config "collision_mesh_key" in
  let run := MoveItIKSolverFactory_create config start in
  let solver := value_or (arm 0%float empty_scene) (fst run) in
  (configured yaml_as_string config "collision_mesh_filename" = Some "part.ply"
   /\ run = (Returned solver, snd run))
  /\ exists frame obj scene,
       (configured yaml_as_string config "collision_mesh_key" = Some frame
        \/ (defined config "collision_mesh_key" = false
            /\ exists kinematics,
                 getSolverInstance (jmg_ solver) = Some kinematics
                 /\ frame = getBaseFrame kinematics))
       /\ createCollisionObject "part.ply" frame COLLISION_OBJECT_NAME = inr obj
       /\ processCollisionObjectMsg (PlanningScene_new (model_ solver)) obj = (true, scene)
       /\ scene_ solver
          = match configured yaml_as_strings config "touch_links" with
            | Some touch_links => setEntry scene COLLISION_OBJECT_NAME touch_links true
            | None => scene
            end
       /\ snd run
          = published
              [getPlanningSceneMsg (PlanningScene_new (model_ solver));
               getPlanningSceneMsg scene] start.
Proof.
  split; [ split; vm_compute; reflexivity | ].
  apply (factory_with_mesh (mesh_config "collision_mesh_key") start).
  - reflexivity.
  - vm_compute. reflexivity.
Defined.

(** X8 on the bench: the raw angle -7. *)
Lemma discretized_factory_extends_factory_on_bench :
  let config := discretized_config (-7)%float in
  configured yaml_as_double config "discretization_angle" = Some (-7)%float
  /\ match MoveItIKSolverFactory_create config start with
     | (Returned solver, w') =>
         DiscretizedMoveItIKSolverFactory_create config start
         = (Returned {| base := solver; dt_ := clamp (std_abs (-7)%float) 0%float M_PI |},
            printed (notice_for (-7)%float) w')
     | (Thrown e, _) =>
         fst (DiscretizedMoveItIKSolverFactory_create config start) = Thrown e
     | (Undefined, _) =>
         fst (DiscretizedMoveItIKSolverFactory_create config start) = Undefined
     end.
Proof.
  split; [ reflexivity | ].
  apply (discretized_factory_extends_factory (discretized_config (-7)%float) (-7)%float
           start).
  reflexivity.
Defined.

(** X9 on the bench: the arm's configuration without an angle. *)
Lemma discretized_create_needs_angle_on_bench :
  configured yaml_as_double base_config "discretization_angle" = None
  /\ exists what,
       DiscretizedMoveItIKSolverFactory_create base_config start
       = (Thrown (runtime_error what), start).
Proof.
  split; [ reflexivity | ].
  apply (discretized_create_needs_angle base_config start). reflexivity.
Defined.

(** X11 on the bench: the raw angle -1. *)
Lemma angle_in_range_on_bench :
  let config := discretized_config (-1)%float in
  let run := DiscretizedMoveItIKSolverFactory_create config start in
  let solver := value_or (sampling_arm 0%float empty_scene) (fst run) in
  (configured yaml_as_double config "discretization_angle" = Some (-1)%float
   /\ (std_abs (-1) <=? M_PI)%float = true
   /\ run = (Returned solver, snd run))
  /\ dt_ solver = std_abs (-1)%float
  /\ cout (snd run) = cout start.
Proof.
  split; [ repeat split; vm_compute; reflexivity | ].
  apply (angle_in_range_is_kept_silently (discretized_config (-1)%float) (-1)%float start).
  - reflexivity.
  - reflexivity.
  - vm_compute. reflexivity.
Defined.

(** X14 on the bench: a solver constructed with the step [-pi], whose first
    call leaves -2 in the static. *)
Lemma nonpositive_sample_count_on_bench :
  let self := sampling_arm (- M_PI)%float empty_scene in
  let target := pose 1%float 0%float in
  ((n_discretizations start = Some (-2)%Z
    \/ (n_discretizations start = None
        /\ double_to_int ((2 * M_PI) / dt_ self)%float = Some (-2)%Z))
   /\ (-2 <= 0)%Z)
  /\ fst (DiscretizedMoveItIKSolver_solveIK self target [] start)
     = (if (-2 <? 0)%Z then Thrown (length_error "vector::reserve") else Returned [])
  /\ ik_requests (snd (DiscretizedMoveItIKSolver_solveIK self target [] start))
     = ik_requests start
  /\ n_discretizations (snd (DiscretizedMoveItIKSolver_solveIK self target [] start))
     = Some (-2)%Z.
Proof.
  split; [ split; [ right; split; vm_compute; reflexivity | lia ] | ].
  apply (nonpositive_sample_count (sampling_arm (- M_PI)%float empty_scene)
           (pose 1%float 0%float) [] start (-2)%Z).
  - right. split; vm_compute; reflexivity.
  - lia.
Defined.

(** X15 on the bench: behind the part at clearance 0 every pose at
    distance 0 fails, and the result is empty. *)
Lemma empty_iff_every_sample_fails_on_bench :
  let self := sampling_arm (M_PI / 3)%float obstructed_scene in
  let target := pose 0%float 0%float in
  let run := DiscretizedMoveItIKSolver_solveIK self target [] start in
  let sols := value_or [[0%float]] (fst run) in
  (run = (Returned sols, snd run) /\ sols = [])
  /\ exists n : Z,
       n_discretizations (snd run) = Some n
       /\ (sols = []
           <-> forall i : Z,
                 (0 <= i < n)%Z ->
                 fst (ik_answer (base self) (rotated_target (dt_ self) target i) [])
                 = false).
Proof.
  split; [ split; vm_compute; reflexivity | ].
  apply (empty_iff_every_sample_fails
           (sampling_arm (M_PI / 3)%float obstructed_scene) (pose 0%float 0%float) [] start
           (snd (DiscretizedMoveItIKSolver_solveIK
                   (sampling_arm (M_PI / 3)%float obstructed_scene)
                   (pose 0%float 0%float) [] start))).
  vm_compute. reflexivity.
Defined.

(** X16 on the bench: from clearance 0.05 down to 0. *)
Lemma lower_threshold_on_bench :
  let self := arm 0x1.999999999999ap-5%float obstructed_scene in
  let self' := arm 0%float obstructed_scene in
  (scene_ self' = scene_ self
   /\ (distance_threshold_ self' <=? distance_threshold_ self)%float = true
   /\ fst (isIKSolutionValid self [] manipulator [0%float; 1%float]) = true)
  /\ fst (isIKSolutionValid self' [] manipulator [0%float; 1%float]) = true.
Proof.
  split; [ repeat split | ].
  apply (lower_threshold_accepts_more
           (arm 0x1.999999999999ap-5%float obstructed_scene) (arm 0%float obstructed_scene)
           [] manipulator [0%float; 1%float]);
    reflexivity.
Defined.

(** X17 on the bench: the raw angle [2 pi]. *)
Lemma angles_above_pi_on_bench :
  (M_PI <? std_abs (2 * M_PI))%float = true
  /\ fst (DiscretizedMoveItIKSolverFactory_create
            (with_option "discretization_angle" (Scalar "6.28" (Some (2 * M_PI)%float))
               base_config) start)
     = fst (DiscretizedMoveItIKSolverFactory_create
              (with_option "discretization_angle" (Scalar "3.14" (Some M_PI)) base_config)
              start)
  /\ forall solver w',
       DiscretizedMoveItIKSolverFactory_create
         (with_option "discretization_angle" (Scalar "6.28" (Some (2 * M_PI)%float))
            base_config) start
       = (Returned solver, w') ->
       dt_ solver = M_PI.
Proof.
  split; [ reflexivity | ].
  apply (angles_above_pi_behave_as_pi base_config "6.28" "3.14" (2 * M_PI)%float start).
  reflexivity.
Defined.

(** X18 on the bench: the step [pi / 2] gives four samples. *)
Lemma first_call_on_bench :
  let self := sampling_arm (M_PI / 2)%float obstructed_scene in
  let target := pose 1%float 0%float in
  (n_discretizations start = None
   /\ double_to_int ((2 * M_PI) / dt_ self)%float = Some 4%Z
   /\ (0 <= 4)%Z)
  /\ exists sols w',
       DiscretizedMoveItIKSolver_solveIK self target [] start = (Returned sols, w')
       /\ n_discretizations w' = Some 4%Z
       /\ ik_requests w'
          = (ik_requests start ++ map (rotated_target (dt_ self) target) (samples 4%Z))%list
       /\ List.length (ik_requests w') = (List.length (ik_requests start) + Z.to_nat 4%Z)%nat.
Proof.
  split; [ split; [ reflexivity | split; [ vm_compute; reflexivity | lia ] ] | ].
  apply (first_call_takes_its_own_samples
           (sampling_arm (M_PI / 2)%float obstructed_scene) (pose 1%float 0%float) []
           start 4%Z).
  - reflexivity.
  - vm_compute. reflexivity.
  - lia.
Defined.

(** X19 on the bench: two constructions and a base solve. *)
Lemma static_untouched_on_bench :
  let ops :=
    [Create base_config;
     CreateDiscretized (discretized_config 1%float);
     Solve (arm 0%float empty_scene) (pose 1%float 0%float) []] in
  forallb (fun op => negb (is_discretized_solve op)) ops = true
  /\ n_discretizations (perform_all ops start) = n_discretizations start.
Proof.
  split; [ reflexivity | ].
  apply (only_discretized_solve_sets_static
           [Create base_config;
            CreateDiscretized (discretized_config 1%float);
            Solve (arm 0%float empty_scene) (pose 1%float 0%float) []]
           start).
  reflexivity.
Defined.

End BenchMore.

(** * The revised properties *)

(** ** The clamped discretization angle *)

Section ClampedAngle.

Context {eigen : EigenKernels} {collaborators : Collaborators}.

Local Open Scope string_scope.

Lemma clamp_nan_0_pi : clamp (std_abs nan) 0%float M_PI = 0%float.
Proof. reflexivity. Qed.

(** C9: whenever the discretized factory builds a solver from a
    configuration, the configuration holds a raw [discretization_angle];
    the solver's step is the clamp into [0, pi] of the raw value's absolute
    value: that absolute value itself when it is at most pi (and then no
    notice is written), pi when it is above pi, and 0 when the raw value is
    a NaN; so the step lies in [0, pi]; the factory wrote its notice to
    [std::cout] exactly when the clamped value differs from the absolute
    value by more than 1e-6, and went on with the clamped value; and with
    any other raw angle in its place the factory builds a solver as well, so
    no angle makes construction fail. *)
Theorem discretization_angle_is_clamped (config : Node) (w w' : World)
  (solver : DiscretizedMoveItIKSolver) :
  DiscretizedMoveItIKSolverFactory_create config w = (Returned solver, w') ->
  exists (text : string) (raw : double),
    subscript config "discretization_angle" = Some (Scalar text (Some raw))
    /\ dt_ solver = clamp (std_abs raw) 0%float M_PI
    /\ ((std_abs raw <=? M_PI)%float = true ->
        dt_ solver = std_abs raw /\ cout w' = cout w)
    /\ ((M_PI <? std_abs raw)%float = true -> dt_ solver = M_PI)
    /\ (is_nan raw = true -> dt_ solver = 0%float)
    /\ (0 <=? dt_ solver)%float = true
    /\ (dt_ solver <=? M_PI)%float = true
    /\ cout w'
       = (cout w
            ++ (if (tolerance <? std_abs (std_abs raw - dt_ solver))%float
                then [clamping_notice (dt_ solver)]
                else []))%list
    /\ forall (text' : string) (raw' : double),
         exists solver' w'',
           DiscretizedMoveItIKSolverFactory_create
             (with_option "discretization_angle" (Scalar text' (Some raw')) config) w
           = (Returned solver', w'')
           /\ dt_ solver' = clamp (std_abs raw') 0%float M_PI.
Proof.
  intros H.
  destruct (created_dt _ _ _ _ H) as (text & raw & A & D & C).
  exists text, raw. split; [ exact A | ]. split; [ exact D | ].
  split.
  { intros R. rewrite (clamp_abs_in_range _ R) in D, C. split; [ exact D | ].
    unfold std_abs in C. rewrite FloatOrderMore.self_difference_within_tolerance in C.
    rewrite app_nil_r in C. exact C. }
  split; [ intros R; rewrite D; apply clamp_above_pi, R | ].
  split.
  { intros N. rewrite D, (all_nans_are_nan _ N). apply clamp_nan_0_pi. }
  rewrite D. destruct (clamp_0_pi_range (std_abs raw)) as [Low High].
  split; [ exact Low | ]. split; [ exact High | ]. split; [ exact C | ].
  intros text' raw'.
  assert (DiscretizedMoveItIKSolverFactory_create
            (with_option "discretization_angle" (Scalar text (Some raw)) config) w
          = (Returned solver, w')) as H1.
  { rewrite <- H. clear H D C.
    unfold DiscretizedMoveItIKSolverFactory_create, reach_get, defined, with_option.
    cbn [subscript String.eqb Ascii.eqb Bool.eqb]. rewrite A. reflexivity. }
  destruct (created_whatever_the_angle _ _ text' _ raw' _ _ _ H1) as (solver' & w'' & H').
  exists solver', w''. split; [ exact H' | ].
  destruct (created_dt _ _ _ _ H') as (t & r & A' & D' & _).
  cbn in A'. injection A' as <- <-. exact D'.
Qed.

End ClampedAngle.

(** ** Runs on the benches *)

Section BenchRevised.

Import Planar.

Local Open Scope string_scope.

(** C9 on the bench: the raw angle -7 is clamped to [pi], with a notice;
    the raw angle -1 is stored as 1, without one. *)
Lemma clamped_angle_on_bench :
  (let config := discretized_config (-7)%float in
   let run := DiscretizedMoveItIKSolverFactory_create config start in
   let solver := value_or (sampling_arm 0%float empty_scene) (fst run) in
   (run = (Returned solver, snd run) /\ dt_ solver = M_PI
    /\ cout (snd run) = [clamping_notice M_PI])
   /\ exists (text : string) (raw : double),
        subscript config "discretization_angle" = Some (Scalar text (Some raw))
        /\ dt_ solver = clamp (std_abs raw) 0%float M_PI
        /\ ((std_abs raw <=? M_PI)%float = true ->
            dt_ solver = std_abs raw /\ cout (snd run) = cout start)
        /\ ((M_PI <? std_abs raw)%float = true -> dt_ solver = M_PI)
        /\ (is_nan raw = true -> dt_ solver = 0%float)
        /\ (0 <=? dt_ solver)%float = true
        /\ (dt_ solver <=? M_PI)%float = true
        /\ cout (snd run)
           = (cout start
                ++ (if (tolerance <? std_abs (std_abs raw - dt_ solver))%float
                    then [clamping_notice (dt_ solver)]
                    else []))%list
        /\ forall (text' : string) (raw' : double),
             exists solver' w'',
               DiscretizedMoveItIKSolverFactory_create
                 (with_option "discretization_angle" (Scalar text' (Some raw')) config) start
               = (Returned solver', w'')
               /\ dt_ solver' = clamp (std_abs raw') 0%float M_PI)
  /\ (let config := discretized_config (-1)%float in
      let run := DiscretizedMoveItIKSolverFactory_create config start in
      let solver := value_or (sampling_arm 0%float empty_scene) (fst run) in
      (run = (Returned solver, snd run) /\ dt_ solver = 1%float /\ cout (snd run) = [])
      /\ exists (text : string) (raw : double),
           subscript config "discretization_angle" = Some (Scalar text (Some raw))
           /\ dt_ solver = clamp (std_abs raw) 0%float M_PI
           /\ ((std_abs raw <=? M_PI)%float = true ->
               dt_ solver = std_abs raw /\ cout (snd run) = cout start)
           /\ ((M_PI <? std_abs raw)%float = true -> dt_ solver = M_PI)
           /\ (is_nan raw = true -> dt_ solver = 0%float)
           /\ (0 <=? dt_ solver)%float = true
           /\ (dt_ solver <=? M_PI)%float = true
           /\ cout (snd run)
              = (cout start
                   ++ (if (tolerance <? std_abs (std_abs raw - dt_ solver))%float
                       then [clamping_notice (dt_ solver)]
                       else []))%list
           /\ forall (text' : string) (raw' : double),
                exists solver' w'',
                  DiscretizedMoveItIKSolverFactory_create
                    (with_option "discretization_angle" (Scalar text' (Some raw')) config)
                    start
                  = (Returned solver', w'')
                  /\ dt_ solver' = clamp (std_abs raw') 0%float M_PI).
Proof.
  split.
  - split; [ repeat split; vm_compute; reflexivity | ].
    apply (discretization_angle_is_clamped (discretized_config (-7)%float) start).
    vm_compute. reflexivity.
  - split; [ repeat split; vm_compute; reflexivity | ].
    apply (discretization_angle_is_clamped (discretized_config (-1)%float) start).
    vm_compute. reflexivity.
Defined.

(** C5: a process builds, with the part in the scene, a solver with step
    [pi] and one with step [pi / 3] and calls the first, then the second.
    Alone the second hands the six poses of the indices 0 .. 5 to the base
    solve; after the first, whose call left 2 in the static, it hands over
    the poses of the indices 0 and 1 only: no pose is generated for the
    indices 2 .. 5 of its own [N = int(2 pi / (pi / 3)) = 6]. *)
Theorem later_caller_generates_too_few_poses :
  let first := sampling_arm M_PI obstructed_scene in
  let second := sampling_arm (M_PI / 3)%float obstructed_scene in
  let target := pose 1%float 0%float in
  let alone := snd (DiscretizedMoveItIKSolver_solveIK second target [] start) in
  let w1 := snd (DiscretizedMoveItIKSolver_solveIK first target [] start) in
  let w2 := snd (DiscretizedMoveItIKSolver_solveIK second target [] w1) in
  built (PlanarMesh.obstructed_config M_PI) = Some first
  /\ built (PlanarMesh.obstructed_config (M_PI / 3)%float) = Some second
  /\ double_to_int ((2 * M_PI) / dt_ second)%float = Some 6%Z
  /\ ik_requests alone = map (rotated_target (dt_ second) target) (samples 6%Z)
  /\ nth_error (ik_requests alone) 5 = Some (rotated_target (dt_ second) target 5%Z)
  /\ n_discretizations w1 = Some 2%Z
  /\ ik_requests w2
     = (ik_requests w1 ++ map (rotated_target (dt_ second) target) (samples 2%Z))%list
  /\ nth_error (skipn (List.length (ik_requests w1)) (ik_requests w2)) 5 = None.
Proof.
  repeat split; vm_compute; reflexivity.
Qed.

(** C6: in the process of C5 the base solve of the second solver succeeds
    at the indices 0 and 5; alone its [solveIK] returns both
    configurations, after the first solver's call it returns the one of
    index 0 only, the entry of the successful index 5 missing.  In another
    process a solver with step [pi / 2] calls first and one with step [pi]
    second, in the empty scene: the second returns four configurations
    although its own [N = int(2 pi / pi)] is 2. *)
Theorem later_caller_returns_wrong_entries :
  (let first := sampling_arm M_PI obstructed_scene in
   let second := sampling_arm (M_PI / 3)%float obstructed_scene in
   let target := pose 1%float 0%float in
   let w1 := snd (DiscretizedMoveItIKSolver_solveIK first target [] start) in
   double_to_int ((2 * M_PI) / dt_ second)%float = Some 6%Z
   /\ filter (fun i => succeeds (base second) (rotated_target (dt_ second) target i) [])
        (samples 6%Z)
      = [0%Z; 5%Z]
   /\ fst (DiscretizedMoveItIKSolver_solveIK second target [] start)
      = Returned
          (attempt (base second) (rotated_target (dt_ second) target 0%Z) []
             ++ attempt (base second) (rotated_target (dt_ second) target 5%Z) [])%list
   /\ fst (DiscretizedMoveItIKSolver_solveIK second target [] w1)
      = Returned (attempt (base second) (rotated_target (dt_ second) target 0%Z) [])
   /\ List.length
        (value_or [] (fst (DiscretizedMoveItIKSolver_solveIK second target [] w1)))
      = 1%nat)
  /\ (let first := sampling_arm (M_PI / 2)%float empty_scene in
      let second := sampling_arm M_PI empty_scene in
      let target := pose 1%float 0%float in
      let w1 := snd (DiscretizedMoveItIKSolver_solveIK first target [] start) in
      built (discretized_config (M_PI / 2)%float) = Some first
      /\ built (discretized_config M_PI) = Some second
      /\ double_to_int ((2 * M_PI) / dt_ second)%float = Some 2%Z
      /\ List.length
           (value_or [] (fst (DiscretizedMoveItIKSolver_solveIK second target [] start)))
         = 2%nat
      /\ List.length
           (value_or [] (fst (DiscretizedMoveItIKSolver_solveIK second target [] w1)))
         = 4%nat).
Proof.
  repeat split; vm_compute; reflexivity.
Qed.

End BenchRevised.

Section BenchMobile.

Local Open Scope string_scope.


End BenchMobile.
